(** * exchangesmtp: message assembly (mail.go and its validating variant)

    Shallow embedding of the message-assembly core of the Go package
    [exchangesmtp]: the address validator (a compiled regular expression),
    boundary generation, the quoted-printable body writer of
    [mime/quotedprintable], the base64 part writer [writeBytes], the subject
    encoder [mime.QEncoding.Encode] and both variants of the [ToBytes] method of [Mail].

    Go strings and byte slices are both byte sequences; they are modelled as
    [list ascii] (an [ascii] is an 8-bit byte).  String literals of the source
    are written with [lit]. *)

From Stdlib Require Import Ascii String List Bool Arith Lia ZArith.
Import ListNotations.

Local Open Scope list_scope.

Definition bytes := list ascii.

Definition lit (s : string) : bytes := list_ascii_of_string s.

Definition byte_of (n : nat) : ascii := ascii_of_nat n.
Definition code (c : ascii) : nat := nat_of_ascii c.

Definition CR : ascii := "013"%char.
Definition LF : ascii := "010"%char.
Definition crlf : bytes := [CR; LF].
(** The double quote character (ASCII 34). *)
Definition dquote : bytes := ["034"%char].

Definition in_range (lo hi : nat) (c : ascii) : bool :=
  (lo <=? code c) && (code c <=? hi).

Definition is_letter (c : ascii) : bool := in_range 65 90 c || in_range 97 122 c.
Definition is_digit (c : ascii) : bool := in_range 48 57 c.
Definition is_char (x : ascii) (c : ascii) : bool := Ascii.eqb c x.

(** ** Regular expressions ([regexp] package)

    The only pattern of the package is anchored at both ends ([^...$]), and
    without the [m] flag Go's [$] only matches at the end of the text, so
    [MatchString] is membership of the whole string in the language of the
    pattern.  All character classes and literals of the pattern are ASCII:
    a non-ASCII byte (alone, or inside a rune, or an invalid byte decoded as
    U+FFFD) is matched by none of them, so matching bytes is the same as
    matching runes. *)
Module Regex.

Inductive re : Type :=
| Void : re
| Eps : re
| Cls : (ascii -> bool) -> re
| Cat : re -> re -> re
| Alt : re -> re -> re
| Star : re -> re.

(** [x+] is [x x*]; [x{2,}] is [x x x*] (RE2's simplification). *)
Definition Plus (r : re) : re := Cat r (Star r).
Definition AtLeast2 (r : re) : re := Cat r (Cat r (Star r)).

Inductive in_re : re -> bytes -> Prop :=
| in_eps : in_re Eps []
| in_cls p c : p c = true -> in_re (Cls p) [c]
| in_cat a b s t : in_re a s -> in_re b t -> in_re (Cat a b) (s ++ t)
| in_altl a b s : in_re a s -> in_re (Alt a b) s
| in_altr a b s : in_re b s -> in_re (Alt a b) s
| in_star0 r : in_re (Star r) []
| in_starS r s t : in_re r s -> in_re (Star r) t -> in_re (Star r) (s ++ t).

Fixpoint nullable (r : re) : bool :=
  match r with
  | Void => false
  | Eps => true
  | Cls _ => false
  | Cat a b => nullable a && nullable b
  | Alt a b => nullable a || nullable b
  | Star _ => true
  end.

(** Brzozowski derivative. *)
Fixpoint deriv (c : ascii) (r : re) : re :=
  match r with
  | Void => Void
  | Eps => Void
  | Cls p => if p c then Eps else Void
  | Cat a b =>
      if nullable a then Alt (Cat (deriv c a) b) (deriv c b)
      else Cat (deriv c a) b
  | Alt a b => Alt (deriv c a) (deriv c b)
  | Star a => Cat (deriv c a) (Star a)
  end.

Fixpoint matches (r : re) (s : bytes) : bool :=
  match s with
  | [] => nullable r
  | c :: s' => matches (deriv c r) s'
  end.

End Regex.

Import Regex.

(** [emailRegex = ^[a-zA-Z0-9._%+\-]+@[a-zA-Z0-9.\-]+\.[a-zA-Z]{2,}$] *)
Definition local_char (c : ascii) : bool :=
  is_letter c || is_digit c || is_char "."%char c || is_char "_"%char c
  || is_char "%"%char c || is_char "+"%char c || is_char "-"%char c.

Definition domain_char (c : ascii) : bool :=
  is_letter c || is_digit c || is_char "."%char c || is_char "-"%char c.

Definition emailRegex : re :=
  Cat (Plus (Cls local_char))
      (Cat (Cls (is_char "@"%char))
           (Cat (Plus (Cls domain_char))
                (Cat (Cls (is_char "."%char))
                     (AtLeast2 (Cls is_letter))))).

(** [ValidateEmail(email) = emailRegex.MatchString(email)] *)
Definition ValidateEmail (email : bytes) : bool := matches emailRegex email.

(** [strings.Join(elems, sep)]. *)
Fixpoint join (sep : bytes) (elems : list bytes) : bytes :=
  match elems with
  | [] => []
  | [x] => x
  | x :: rest => x ++ sep ++ join sep rest
  end.

(** The address shape as the specification words it: a local part, [@],
    then one or more dot-separated labels of letters, digits and [-], the
    last one letters only and at least two long. *)
Definition label_char (c : ascii) : bool := is_letter c || is_digit c || is_char "-"%char c.

Definition spec_email_shape (s : bytes) : Prop :=
  exists local labels,
    s = local ++ lit "@" ++ join (lit ".") labels
    /\ local <> [] /\ forallb local_char local = true
    /\ labels <> []
    /\ Forall (fun l => l <> [] /\ forallb label_char l = true) labels
    /\ 2 <= length (last labels []) /\ forallb is_letter (last labels []) = true.

(** The language of [emailRegex], written out: a local part, [@], a
    non-empty run of letters, digits, dots and dashes, a dot, and a
    final run of at least two letters. *)
Definition regex_email_shape (s : bytes) : Prop :=
  exists local mid tld,
    s = local ++ lit "@" ++ mid ++ lit "." ++ tld
    /\ local <> [] /\ forallb local_char local = true
    /\ mid <> [] /\ forallb domain_char mid = true
    /\ 2 <= length tld /\ forallb is_letter tld = true.

(** ** Base64 ([encoding/base64], [StdEncoding]) and [writeBytes]

    [StdEncoding.Encode] takes the input three bytes at a time:
    [val = b0<<16 | b1<<8 | b2] and emits the alphabet characters of
    [val>>18&0x3F], [val>>12&0x3F], [val>>6&0x3F], [val&0x3F]; a final group
    of one or two bytes is padded with [=].  The shifts and masks are written
    as divisions and remainders by powers of two. *)
Definition b64_alphabet : bytes :=
  lit "ABCDEFGHIJKLMNOPQRSTUVWXYZabcdefghijklmnopqrstuvwxyz0123456789+/".

Definition pad_char : ascii := "="%char.

Definition enc_char (n : Z) : ascii := nth (Z.to_nat n) b64_alphabet "A"%char.

Definition zcode (c : ascii) : Z := Z.of_nat (code c).

Local Open Scope Z_scope.

Definition sextet (val : Z) (shift : Z) : Z := (val / 2 ^ shift) mod 64.

Fixpoint b64_encode (src : bytes) : bytes :=
  match src with
  | b0 :: b1 :: b2 :: rest =>
      let val := zcode b0 * 2 ^ 16 + zcode b1 * 2 ^ 8 + zcode b2 in
      enc_char (sextet val 18) :: enc_char (sextet val 12)
        :: enc_char (sextet val 6) :: enc_char (sextet val 0) :: b64_encode rest
  | [b0; b1] =>
      let val := zcode b0 * 2 ^ 16 + zcode b1 * 2 ^ 8 in
      [enc_char (sextet val 18); enc_char (sextet val 12); enc_char (sextet val 6); pad_char]
  | [b0] =>
      let val := zcode b0 * 2 ^ 16 in
      [enc_char (sextet val 18); enc_char (sextet val 12); pad_char; pad_char]
  | [] => []
  end.

(** The standard decoder, used to state the round trip: the inverse
    alphabet, then four characters at a time ([byte(val>>16)],
    [byte(val>>8)], [byte(val)]), with one or two [=] only in the last
    group. *)
Definition dec_char (c : ascii) : option Z :=
  let n := zcode c in
  if in_range 65 90 c then Some (n - 65)%Z
  else if in_range 97 122 c then Some (n - 71)%Z
  else if in_range 48 57 c then Some (n + 4)%Z
  else if is_char "+"%char c then Some 62%Z
  else if is_char "/"%char c then Some 63%Z
  else None.

Definition byte_of_Z (z : Z) : ascii := byte_of (Z.to_nat (z mod 256)).

Definition is_nil {A} (l : list A) : bool := match l with [] => true | _ => false end.

Fixpoint b64_decode (s : bytes) : option bytes :=
  match s with
  | [] => Some []
  | c0 :: c1 :: c2 :: c3 :: rest =>
      match dec_char c0, dec_char c1 with
      | Some d0, Some d1 =>
          if is_char pad_char c2 && is_char pad_char c3 && is_nil rest then
            Some [byte_of_Z ((d0 * 2 ^ 18 + d1 * 2 ^ 12) / 2 ^ 16)]
          else if is_char pad_char c3 && is_nil rest then
            match dec_char c2 with
            | Some d2 =>
                let val := d0 * 2 ^ 18 + d1 * 2 ^ 12 + d2 * 2 ^ 6 in
                Some [byte_of_Z (val / 2 ^ 16); byte_of_Z (val / 2 ^ 8)]
            | None => None
            end
          else
            match dec_char c2, dec_char c3, b64_decode rest with
            | Some d2, Some d3, Some r =>
                let val := d0 * 2 ^ 18 + d1 * 2 ^ 12 + d2 * 2 ^ 6 + d3 in
                Some (byte_of_Z (val / 2 ^ 16) :: byte_of_Z (val / 2 ^ 8) :: byte_of_Z val :: r)
            | _, _, _ => None
            end
      | _, _ => None
      end
  | _ => None
  end.

Local Close Scope Z_scope.

(** Removing the line breaks: every CR and LF byte is dropped. *)
Definition is_crlf_byte (c : ascii) : bool := is_char CR c || is_char LF c.
Definition strip_crlf (s : bytes) : bytes := filter (fun c => negb (is_crlf_byte c)) s.

(** The loop of [writeBytes]:
    [for index := 0; index < len(payload); index++ {
       msg.WriteByte(payload[index]); if (index+1)%76 == 0 { msg.WriteString(CRLF) } }] *)
Fixpoint wb_loop (index : nat) (payload : bytes) : bytes :=
  match payload with
  | [] => []
  | c :: rest =>
      c :: (if (index + 1) mod 76 =? 0 then crlf else []) ++ wb_loop (S index) rest
  end.

(** The bytes [writeBytes] appends to the buffer (it never fails): a CRLF
    that ends the part headers, then the wrapped base64 payload. *)
Definition writeBytes (file : bytes) : bytes :=
  crlf ++ wb_loop 0 (b64_encode file).

(** The binary encoder as the specification words it: base64, hard-wrapped
    every 76 characters with a CRLF after every line, the last one too. *)
Fixpoint spec_wrap (col : nat) (p : bytes) : bytes :=
  match p with
  | [] => if col =? 0 then [] else crlf
  | c :: rest =>
      if S col =? 76 then c :: crlf ++ spec_wrap 0 rest else c :: spec_wrap (S col) rest
  end.

Definition spec_encodeBinary (file : bytes) : bytes := spec_wrap 0 (b64_encode file).

(** Cutting a character stream into lines of 76: a CRLF follows each full
    line of 76 characters and nothing follows a shorter last line. *)
Fixpoint wrap_full_lines (fuel : nat) (p : bytes) : bytes :=
  match fuel with
  | 0 => p
  | S f =>
      if 76 <=? length p then firstn 76 p ++ crlf ++ wrap_full_lines f (skipn 76 p)
      else p
  end.

Definition wrap76 (p : bytes) : bytes := wrap_full_lines (length p) p.

(** ** Quoted-printable writer ([mime/quotedprintable], [Writer])

    The writer keeps the current line in [line] ([w.i] is its length), the
    [cr] flag, and the bytes it has flushed to the destination in [out]. *)
Record qpWriter : Type := mkQP { qp_line : bytes; qp_cr : bool; qp_out : bytes }.

Definition lineMaxLen : nat := 76.
Definition upperhex : bytes := lit "0123456789ABCDEF".
Definition hex_hi (b : ascii) : ascii := nth (code b / 16) upperhex "0"%char.
Definition hex_lo (b : ascii) : ascii := nth (code b mod 16) upperhex "0"%char.

Definition isWhitespace (b : ascii) : bool := is_char " "%char b || is_char "009"%char b.

Definition qp_flush (w : qpWriter) : qpWriter :=
  mkQP [] (qp_cr w) (qp_out w ++ qp_line w).

Definition qp_insertCRLF (w : qpWriter) : qpWriter :=
  qp_flush (mkQP (qp_line w ++ crlf) (qp_cr w) (qp_out w)).

Definition qp_insertSoftLineBreak (w : qpWriter) : qpWriter :=
  qp_insertCRLF (mkQP (qp_line w ++ ["="%char]) (qp_cr w) (qp_out w)).

(** [if lineMaxLen-1-w.i < 3 { insertSoftLineBreak }], then [=XX]. *)
Definition qp_encode (b : ascii) (w : qpWriter) : qpWriter :=
  let w := if (Z.of_nat lineMaxLen - 1 - Z.of_nat (length (qp_line w)) <? 3)%Z
           then qp_insertSoftLineBreak w else w in
  mkQP (qp_line w ++ ["="%char; hex_hi b; hex_lo b]) (qp_cr w) (qp_out w).

(** Encodes the last buffered byte if it is a space or a tab. *)
Definition qp_checkLastByte (w : qpWriter) : qpWriter :=
  match qp_line w with
  | [] => w
  | _ =>
      let b := last (qp_line w) "000"%char in
      if isWhitespace b
      then qp_encode b (mkQP (removelast (qp_line w)) (qp_cr w) (qp_out w))
      else w
  end.

(** One byte of the private [write] method. *)
Definition qp_write_byte (w : qpWriter) (b : ascii) : qpWriter :=
  if is_char LF b || is_char CR b then
    if qp_cr w && is_char LF b then mkQP (qp_line w) false (qp_out w)
    else
      let w := if is_char CR b then mkQP (qp_line w) true (qp_out w) else w in
      qp_insertCRLF (qp_checkLastByte w)
  else
    let w := if length (qp_line w) =? lineMaxLen - 1
             then qp_insertSoftLineBreak w else w in
    mkQP (qp_line w ++ [b]) false (qp_out w).

Definition qp_write (w : qpWriter) (p : bytes) : qpWriter := fold_left qp_write_byte p w.

(** The bytes [Write] passes through in batches (not [Binary]). *)
Definition qp_batched (b : ascii) : bool :=
  (in_range 33 126 b && negb (is_char "="%char b)) || isWhitespace b
  || is_char LF b || is_char CR b.

(** [Write(p)]: runs of batched bytes go to [write], any other byte to
    [encode]; [pending] is [p[n:i]]. *)
Fixpoint qp_Write_loop (w : qpWriter) (pending : bytes) (p : bytes) : qpWriter :=
  match p with
  | [] => qp_write w pending
  | b :: rest =>
      if qp_batched b then qp_Write_loop w (pending ++ [b]) rest
      else qp_Write_loop (qp_encode b (qp_write w pending)) [] rest
  end.

Definition qp_Write (w : qpWriter) (p : bytes) : qpWriter := qp_Write_loop w [] p.

Definition qp_Close (w : qpWriter) : qpWriter := qp_flush (qp_checkLastByte w).

(** What [qp := quotedprintable.NewWriter(msg); qp.Write(body); qp.Close()]
    writes to [msg]. *)
Definition quotedprintable_body (body : bytes) : bytes :=
  qp_out (qp_Close (qp_Write (mkQP [] false []) body)).

(** ** Subject encoding ([mime.QEncoding.Encode])

    [needsEncoding] ranges over the runes of the string; a byte at or above
    0x80 always yields a rune above [~] (a decoded rune or U+FFFD), so the
    test can be made byte by byte. *)
Definition needsEncoding (s : bytes) : bool :=
  existsb (fun b => ((code b <? 32) || (126 <? code b)) && negb (is_char "009"%char b)) s.

(** Width of the rune at the start of [s], as [utf8.DecodeRuneInString]
    returns it (1 for an invalid or truncated sequence). *)
Definition rune_len (s : bytes) : nat :=
  match s with
  | [] => 0
  | s0 :: rest =>
      let c := code s0 in
      let '(sz, lo, hi) :=
        if c <? 194 then (1, 0, 0)
        else if c <=? 223 then (2, 128, 191)
        else if c =? 224 then (3, 160, 191)
        else if c <=? 236 then (3, 128, 191)
        else if c =? 237 then (3, 128, 159)
        else if c <=? 239 then (3, 128, 191)
        else if c =? 240 then (4, 144, 191)
        else if c <=? 243 then (4, 128, 191)
        else if c =? 244 then (4, 128, 143)
        else (1, 0, 0) in
      if sz =? 1 then 1
      else if length s <? sz then 1
      else match rest with
           | s1 :: rest1 =>
               if negb (in_range lo hi s1) then 1
               else if sz <=? 2 then 2
               else match rest1 with
                    | s2 :: rest2 =>
                        if negb (in_range 128 191 s2) then 1
                        else if sz <=? 3 then 3
                        else match rest2 with
                             | s3 :: _ => if negb (in_range 128 191 s3) then 1 else 4
                             | [] => 1
                             end
                    | [] => 1
                    end
           | [] => 1
           end
  end.

Definition writeQString (s : bytes) : bytes :=
  flat_map (fun b =>
              if is_char " "%char b then ["_"%char]
              else if in_range 33 126 b && negb (is_char "="%char b)
                      && negb (is_char "?"%char b) && negb (is_char "_"%char b)
              then [b]
              else ["="%char; hex_hi b; hex_lo b]) s.

Definition openWord (charset : bytes) : bytes := lit "=?" ++ charset ++ lit "?q?".
Definition closeWord : bytes := lit "?=".
Definition splitWord (charset : bytes) : bytes := closeWord ++ lit " " ++ openWord charset.

(** [maxContentLen = 75 - len("=?UTF-8?q?") - len("?=")]. *)
Definition maxContentLen : nat := 63.

Definition q_single (b : ascii) : bool :=
  in_range 32 126 b && negb (is_char "="%char b) && negb (is_char "?"%char b)
  && negb (is_char "_"%char b).

(** The loop of [qEncode] for a UTF-8 charset; [fuel] bounds the number of
    runes. *)
Fixpoint qEncode_loop (charset : bytes) (fuel : nat) (s : bytes) (currentLen : nat) : bytes :=
  match fuel, s with
  | 0, _ => []
  | _, [] => []
  | S f, b :: _ =>
      let runeLen := if q_single b then 1 else rune_len s in
      let encLen := if q_single b then 1 else 3 * runeLen in
      let '(sep, cur) := if maxContentLen <? currentLen + encLen
                         then (splitWord charset, 0) else ([], currentLen) in
      sep ++ writeQString (firstn runeLen s)
          ++ qEncode_loop charset f (skipn runeLen s) (cur + encLen)
  end.

Definition lower (c : ascii) : ascii :=
  if in_range 65 90 c then byte_of (code c + 32) else c.

(** [strings.EqualFold(charset, "UTF-8")] on ASCII. *)
Definition isUTF8 (charset : bytes) : bool :=
  (length charset =? 5) && forallb (fun '(a, b) => Ascii.eqb (lower a) b)
                                   (combine charset (lit "utf-8")).

Definition encodeWord (charset s : bytes) : bytes :=
  openWord charset
  ++ (if isUTF8 charset then qEncode_loop charset (length s) s 0 else writeQString s)
  ++ closeWord.

Definition QEncode (charset s : bytes) : bytes :=
  if needsEncoding s then encodeWord charset s else s.

(** ** Boundaries and message types *)

(** [fmt.Sprintf("%x", buf)]: two lower-case hex digits per byte. *)
Definition lowerhex : bytes := lit "0123456789abcdef".
Definition hex_byte (b : ascii) : bytes :=
  [nth (code b / 16) lowerhex "0"%char; nth (code b mod 16) lowerhex "0"%char].

(** [var buf [16]byte; rand.Read(buf[:])]: the bytes the source delivered
    fill [buf] from the start, the rest stay zero; the returned error is
    not looked at. *)
Definition fill16 (delivered : bytes) : bytes :=
  firstn 16 (delivered ++ repeat "000"%char 16).

Definition render_boundary (buf : bytes) : bytes := lit "boundary-" ++ flat_map hex_byte buf.

Inductive MailType : Type := PlainText | HTML.

Definition MailType_String (mt : MailType) : bytes :=
  match mt with PlainText => lit "text/plain" | HTML => lit "text/html" end.

Definition charset : bytes := lit "UTF-8".

Record AttachmentFile : Type := mkAttachment {
  AName : bytes; AContentType : bytes; ABody : bytes }.

Record InlineFile : Type := mkInline {
  ICID : bytes; IName : bytes; IContentType : bytes; IBody : bytes }.

(** [Mail] of the validating variant. *)
Record Mail : Type := mkMail {
  MT : MailType; From : bytes; To : list bytes; Subject : bytes; Body : bytes;
  Attachment : list AttachmentFile; Inline : list InlineFile }.

(** [Mail] of [mail.go] (no inline files, an unexported [contentType]). *)
Record Mail2 : Type := mkMail2 {
  MT2 : MailType; From2 : bytes; To2 : list bytes; Subject2 : bytes; Body2 : bytes;
  contentType2 : bytes; Attachment2 : list AttachmentFile }.

(** ** The assembly monad

    [ToBytes] threads the output buffer [msg] and the position in the
    stream of calls to the random source, and stops at the first error.
    Every byte of [msg] carries whether an encoder ([writeBytes], the
    quoted-printable writer) produced it; [msg.Bytes()] forgets the tag. *)
Record asmState : Type := mkState { msg : list (ascii * bool); draws : nat }.

Inductive result (A : Type) : Type :=
| Ok : A -> asmState -> result A
| Err : bytes -> result A.
Arguments Ok {A}.
Arguments Err {A}.

Definition M (A : Type) : Type := asmState -> result A.

Definition ret {A} (a : A) : M A := fun st => Ok a st.
Definition throw {A} (e : bytes) : M A := fun _ => Err e.
Definition bind {A B} (m : M A) (k : A -> M B) : M B :=
  fun st => match m st with Ok a st' => k a st' | Err e => Err e end.

Notation "x <- m ;; k" := (bind m (fun x => k)) (at level 61, m at next level, right associativity).
Notation "m ;; k" := (bind m (fun _ => k)) (at level 61, right associativity).

Definition tag (enc : bool) (s : bytes) : list (ascii * bool) := map (fun c => (c, enc)) s.

(** [msg.WriteString(s)] from [ToBytes] itself. *)
Definition write_lit (s : bytes) : M unit :=
  fun st => Ok tt (mkState (msg st ++ tag false s) (draws st)).

(** Bytes written to [msg] by an encoder. *)
Definition write_enc (s : bytes) : M unit :=
  fun st => Ok tt (mkState (msg st ++ tag true s) (draws st)).

Definition bytes_of (b : list (ascii * bool)) : bytes := map fst b.

Section Assembly.

(** The [k]-th call of [crypto/rand.Read] during a call of [ToBytes]: the
    bytes it delivered and the error it reported. *)
Variable rand_read : nat -> bytes * option bytes.
(** [os.ReadFile(name)]: the contents and the error. *)
Variable readFile : bytes -> bytes * option bytes.
(** The quoted-printable writer run on the body ([Write] then [Close]):
    the bytes it wrote to [msg] and the first error reported. *)
Variable qp_body : bytes -> bytes * option bytes.

Definition generateBoundary : M bytes :=
  fun st =>
    let '(delivered, _) := rand_read (draws st) in
    Ok (render_boundary (fill16 delivered)) (mkState (msg st) (S (draws st))).

(** [m.writeBytes(msg, file)] (its error is always nil). *)
Definition m_writeBytes (file : bytes) : M unit := write_enc (writeBytes file).

Definition m_writeFile (fileName : bytes) : M unit :=
  let '(file, err) := readFile fileName in
  match err with
  | Some e => throw e
  | None => m_writeBytes file
  end.

Definition write_qp (body : bytes) : M unit :=
  let '(out, err) := qp_body body in
  write_enc out;;
  match err with
  | Some e => throw e
  | None => ret tt
  end.

Definition write_body_part (mt : MailType) (body : bytes) : M unit :=
  write_lit (lit "Content-Type: " ++ MailType_String mt ++ lit "; charset=" ++ charset ++ crlf);;
  write_lit (lit "Content-Transfer-Encoding: quoted-printable" ++ crlf ++ crlf);;
  write_qp body.

Definition default_content_type (ct : bytes) : bytes :=
  if is_nil ct then lit "application/octet-stream" else ct.

Fixpoint write_inlines (relatedBoundary : bytes) (files : list InlineFile) : M unit :=
  match files with
  | [] => ret tt
  | file :: rest =>
      write_lit (crlf ++ lit "--" ++ relatedBoundary ++ crlf);;
      let contentType := default_content_type (IContentType file) in
      write_lit (lit "Content-Type: " ++ contentType ++ lit "; name=" ++ dquote ++ IName file
                 ++ dquote ++ crlf);;
      write_lit (lit "Content-Transfer-Encoding: base64" ++ crlf);;
      write_lit (lit "Content-ID: <" ++ ICID file ++ lit ">" ++ crlf);;
      write_lit (lit "Content-Disposition: inline; filename=" ++ dquote ++ IName file
                 ++ dquote ++ crlf);;
      m_writeBytes (IBody file);;
      write_inlines relatedBoundary rest
  end.

Fixpoint write_attachments (boundary : bytes) (files : list AttachmentFile) : M unit :=
  match files with
  | [] => ret tt
  | file :: rest =>
      write_lit (crlf ++ lit "--" ++ boundary ++ crlf);;
      let contentType := default_content_type (AContentType file) in
      write_lit (lit "Content-Type: " ++ contentType ++ lit "; name=" ++ dquote ++ AName file
                 ++ dquote ++ crlf);;
      write_lit (lit "Content-Transfer-Encoding: base64" ++ crlf);;
      write_lit (lit "Content-Disposition: attachment; filename=" ++ dquote ++ AName file
                 ++ dquote ++ crlf);;
      (if negb (is_nil (ABody file)) then m_writeBytes (ABody file)
       else m_writeFile (AName file));;
      write_attachments boundary rest
  end.

(** [for _, addr := range m.To { if !ValidateEmail(addr) { return ... } }] *)
Fixpoint check_to (addrs : list bytes) : M unit :=
  match addrs with
  | [] => ret tt
  | addr :: rest =>
      if negb (ValidateEmail addr) then throw (lit "invalid To email address: " ++ addr)
      else check_to rest
  end.

Definition write_headers (from : bytes) (to : list bytes) (subject : bytes) : M unit :=
  write_lit (lit "From: " ++ from ++ crlf);;
  write_lit (lit "To: " ++ join (lit ", ") to ++ crlf);;
  let sbj := QEncode (lit "utf-8") subject in
  write_lit (lit "Subject: " ++ sbj ++ crlf);;
  write_lit (lit "MIME-Version: 1.0" ++ crlf).

(** [ToBytes] of the validating variant, up to the final return. *)
Definition ToBytes_m (m : Mail) : M unit :=
  if is_nil (To m) then throw (lit "recipient list is empty") else
  if is_nil (Body m) then throw (lit "email body is empty") else
  if negb (ValidateEmail (From m)) then throw (lit "invalid From email address: " ++ From m) else
  check_to (To m);;
  write_headers (From m) (To m) (Subject m);;
  boundary <- generateBoundary;;
  let hasAttachments := negb (is_nil (Attachment m)) in
  let hasInline := negb (is_nil (Inline m)) in
  (if hasAttachments || hasInline then
     write_lit (lit "Content-Type: multipart/mixed; boundary=" ++ boundary ++ crlf ++ crlf);;
     write_lit (lit "--" ++ boundary ++ crlf)
   else ret tt);;
  (if hasInline then
     relatedBoundary <- generateBoundary;;
     write_lit (lit "Content-Type: multipart/related; boundary=" ++ relatedBoundary ++ crlf ++ crlf);;
     write_lit (lit "--" ++ relatedBoundary ++ crlf);;
     write_body_part (MT m) (Body m);;
     write_inlines relatedBoundary (Inline m);;
     write_lit (crlf ++ lit "--" ++ relatedBoundary ++ lit "--" ++ crlf)
   else
     write_body_part (MT m) (Body m));;
  (if hasAttachments then write_attachments boundary (Attachment m) else ret tt);;
  (if hasAttachments || hasInline then
     write_lit (crlf ++ lit "--" ++ boundary ++ lit "--" ++ crlf)
   else ret tt).

Definition init_state : asmState := mkState [] 0.

(** [ToBytes() ([]byte, error)]: [(Some bytes, None)] on success, [(None,
    Some err)] for [return nil, err]. *)
Definition ToBytes (m : Mail) : option bytes * option bytes :=
  match ToBytes_m m init_state with
  | Ok _ st => (Some (bytes_of (msg st)), None)
  | Err e => (None, Some e)
  end.

(** [ToBytes] of [mail.go]: no address validation, no inline files. *)
Definition ToBytes2_m (m : Mail2) : M unit :=
  if is_nil (To2 m) then throw (lit "recipient list is empty") else
  if is_nil (Body2 m) then throw (lit "email body is empty") else
  write_headers (From2 m) (To2 m) (Subject2 m);;
  boundary <- generateBoundary;;
  (if negb (is_nil (Attachment2 m)) then
     write_lit (lit "Content-Type: multipart/mixed; boundary=" ++ boundary ++ crlf ++ crlf);;
     write_lit (lit "--" ++ boundary ++ crlf)
   else ret tt);;
  write_body_part (MT2 m) (Body2 m);;
  (if negb (is_nil (Attachment2 m)) then
     write_attachments boundary (Attachment2 m);;
     write_lit (crlf ++ lit "--" ++ boundary ++ lit "--" ++ crlf)
   else ret tt).

Definition ToBytes2 (m : Mail2) : option bytes * option bytes :=
  match ToBytes2_m m init_state with
  | Ok _ st => (Some (bytes_of (msg st)), None)
  | Err e => (None, Some e)
  end.

End Assembly.

(** The quoted-printable writer writes into a [bytes.Buffer], whose writes
    never fail, so neither [Write] nor [Close] reports an error. *)
Definition go_qp (body : bytes) : bytes * option bytes := (quotedprintable_body body, None).

(** ** Helpers for stating the claims *)

Fixpoint is_prefix (p s : bytes) : bool :=
  match p, s with
  | [], _ => true
  | a :: p', b :: s' => Ascii.eqb a b && is_prefix p' s'
  | _ :: _, [] => false
  end.

(** The four header lines as [ToBytes] writes them. *)
Definition header_block (from : bytes) (to : list bytes) (subject : bytes) : bytes :=
  lit "From: " ++ from ++ crlf ++ lit "To: " ++ join (lit ", ") to ++ crlf
  ++ lit "Subject: " ++ QEncode (lit "utf-8") subject ++ crlf ++ lit "MIME-Version: 1.0" ++ crlf.

(** The subject field as the specification words it: encoded only when the
    subject has a byte outside ASCII. *)
Definition spec_subject_field (subject : bytes) : bytes :=
  if forallb (fun c => code c <? 128) subject then subject
  else encodeWord (lit "utf-8") subject.

Definition spec_header_block (from : bytes) (to : list bytes) (subject : bytes) : bytes :=
  lit "From: " ++ from ++ crlf ++ lit "To: " ++ join (lit ", ") to ++ crlf
  ++ lit "Subject: " ++ spec_subject_field subject ++ crlf ++ lit "MIME-Version: 1.0" ++ crlf.

(** The body part header lines for a message without a multipart wrapper. *)
Definition body_part_headers (mt : MailType) : bytes :=
  lit "Content-Type: " ++ MailType_String mt ++ lit "; charset=" ++ charset ++ crlf
  ++ lit "Content-Transfer-Encoding: quoted-printable" ++ crlf ++ crlf.

(** A random source whose every read fails without delivering a byte. *)
Definition rand_failing (k : nat) : bytes * option bytes := ([], Some (lit "unexpected EOF")).

(** A random source that delivers sixteen bytes of value [k+1] on call [k]. *)
Definition rand_counter (k : nat) : bytes * option bytes := (repeat (byte_of (S k)) 16, None).

(** A file system in which every read fails. *)
Definition readFile_missing (name : bytes) : bytes * option bytes :=
  ([], Some (lit "open " ++ name ++ lit ": no such file or directory")).

(** A file system in which every file holds the same bytes. *)
Definition readFile_const (contents : bytes) (name : bytes) : bytes * option bytes :=
  (contents, None).

(** A message whose subject is plain ASCII with a line feed in it. *)
Definition mail_ctrl_subject : Mail :=
  mkMail PlainText (lit "a@b.com") [lit "c@d.com"] (lit "Hi" ++ [LF] ++ lit "there")
         (lit "hello") [] [].

(** A message with one attachment given by name only. *)
Definition mail_with_file_attachment : Mail :=
  mkMail PlainText (lit "a@b.com") [lit "c@d.com"] (lit "Hi") (lit "hello")
         [mkAttachment (lit "testfile.txt") [] []] [].

(** The scenario message of the specification. *)
Definition mail_plain : Mail :=
  mkMail PlainText (lit "a@b.com") [lit "c@d.com"] (lit "Hi") (lit "hello") [] [].

(** The output of [ToBytes] for [mail_ctrl_subject]. *)
Definition ctrl_subject_out : bytes :=
  match ToBytes rand_counter readFile_missing go_qp mail_ctrl_subject with
  | (Some out, _) => out
  | (None, _) => []
  end.

(** A message whose second recipient is not an address. *)
Definition mail_bad_to : Mail :=
  mkMail PlainText (lit "a@b.com") [lit "c@d.com"; lit "bad"] (lit "Hi") (lit "hello") [] [].

(** The [mail.go] message carrying the same fields. *)
Definition mail2_of (m : Mail) (ct : bytes) : Mail2 :=
  mkMail2 (MT m) (From m) (To m) (Subject m) (Body m) ct (Attachment m).

(** ** Lines of the assembled message

    The buffer is split at each CR LF pair; every byte carries the tag of
    [write_lit] (false) or [write_enc] (true). *)
Definition cons_first {A} (x : A) (ls : list (list A)) : list (list A) :=
  match ls with
  | [] => [[x]]
  | l :: ls' => (x :: l) :: ls'
  end.

Fixpoint lines_of (l : list (ascii * bool)) : list (list (ascii * bool)) :=
  match l with
  | [] => [[]]
  | x :: rest =>
      match rest with
      | y :: rest' =>
          if is_char CR (fst x) && is_char LF (fst y) then [] :: lines_of rest'
          else cons_first x (lines_of rest)
      | [] => [[x]]
      end
  end.

(** A line holding a byte written by an encoder has at most 76 bytes. *)
Definition line_ok (ln : list (ascii * bool)) : bool :=
  negb (existsb snd ln) || (length ln <=? 76).

Definition encoded_lines_ok (l : list (ascii * bool)) : bool :=
  forallb line_ok (lines_of l).

(** The buffer is empty or ends with CR LF. *)
Definition fresh (l : list (ascii * bool)) : Prop :=
  l = [] \/ exists x t1 t2, l = x ++ [(CR, t1); (LF, t2)].

Definition ends_crlf (s : bytes) : bool :=
  match rev s with
  | b1 :: b2 :: _ => is_char LF b1 && is_char CR b2
  | _ => false
  end.

Definition noCR (s : bytes) : bool := forallb (fun c => negb (is_char CR c)) s.

(** What the quoted-printable writer keeps true between its steps. *)
Definition QInv (w : qpWriter) : Prop :=
  fresh (tag true (qp_out w)) /\ encoded_lines_ok (tag true (qp_out w)) = true
  /\ length (qp_line w) <= 75 /\ noCR (qp_line w) = true.

(** A step of the assembly that, from a buffer satisfying [P], leaves one
    satisfying [Q] whenever it succeeds. *)
Definition triple {A} (P Q : list (ascii * bool) -> Prop) (m : M A) : Prop :=
  forall st a st', P (msg st) -> m st = Ok a st' -> Q (msg st').

Definition lines_short (l : list (ascii * bool)) : Prop := encoded_lines_ok l = true.
Definition lines_short_fresh (l : list (ascii * bool)) : Prop :=
  encoded_lines_ok l = true /\ fresh l.

(** Two hundred bytes: [0123456789] twenty times. *)
Definition long_bytes : bytes := concat (repeat (lit "0123456789") 20).

(** A message with a body of long lines, one inline file and one attachment
    given by name only. *)
Definition mail_parts : Mail :=
  mkMail HTML (lit "a@b.com") [lit "c@d.com"; lit "e@f.org"] (lit "Report")
         (long_bytes ++ lit " =" ++ [CR; LF] ++ long_bytes ++ ["009"%char; " "%char])
         [mkAttachment (lit "data.bin") [] []]
         [mkInline (lit "logo") (lit "logo.png") (lit "image/png") long_bytes].

Definition mail_parts_state : asmState :=
  match ToBytes_m rand_counter (readFile_const long_bytes) go_qp mail_parts init_state with
  | Ok _ st => st
  | Err _ => init_state
  end.

(** Every step of the assembly only appends to [msg]. *)
Definition grows {A} (m : M A) : Prop :=
  forall st a st', m st = Ok a st' -> exists sfx, msg st' = msg st ++ sfx.

(** ** Helpers for the further properties *)

(** A lower-case hex digit, as [%x] prints them, and its value. *)
Definition is_lowerhex (c : ascii) : bool := in_range 48 57 c || in_range 97 102 c.
Definition hex_value (c : ascii) : nat := if in_range 48 57 c then code c - 48 else code c - 87.

(** A byte [writeBytes] may write. *)
Definition b64_out_char (c : ascii) : bool :=
  existsb (fun a => Ascii.eqb a c) b64_alphabet || is_char pad_char c || is_char CR c
  || is_char LF c.

(** Lines of quoted-printable text: printable ASCII, spaces and tabs; no
    trailing space or tab; at most 76 bytes. *)
Definition qp_text_char (c : ascii) : bool := in_range 32 126 c || is_char "009"%char c.

Definition ends_ws (ln : bytes) : bool :=
  match rev ln with c :: _ => isWhitespace c | [] => false end.

Definition qp_line_ok (ln : bytes) : bool :=
  forallb qp_text_char ln && negb (ends_ws ln) && (length ln <=? 76).

(** Lines each terminated by CR LF. *)
Definition crlf_lines (ls : list bytes) : bytes := flat_map (fun l => l ++ crlf) ls.

(** Lines the quoted-printable writer copies unchanged. *)
Definition plain_char (c : ascii) : bool :=
  (in_range 32 126 c && negb (is_char "="%char c)) || is_char "009"%char c.

Definition plain_line (ln : bytes) : bool :=
  forallb plain_char ln && negb (ends_ws ln) && (length ln <=? 75).

(** What the quoted-printable writer keeps true of its finished lines
    and of the line it is building. *)
Definition qp_shape_inv (w : qpWriter) : Prop :=
  exists ls, qp_out w = crlf_lines ls /\ forallb qp_line_ok ls = true
    /\ forallb qp_text_char (qp_line w) = true /\ length (qp_line w) <= 75.

(** The lines of a byte string: the pieces between its CR LF pairs. *)
Definition split_crlf (s : bytes) : list bytes := map bytes_of (lines_of (tag false s)).

(** The byte [x] belongs to none of the classes of the pattern. *)
Fixpoint re_excludes (x : ascii) (r : re) : Prop :=
  match r with
  | Void | Eps => True
  | Cls p => p x = false
  | Cat a b | Alt a b => re_excludes x a /\ re_excludes x b
  | Star a => re_excludes x a
  end.

(** An attachment [ToBytes] can write: it has a body, or its file is read
    without error. *)
Definition attachment_readable (rf : bytes -> bytes * option bytes) (f : AttachmentFile) : Prop :=
  ABody f <> [] \/ snd (rf (AName f)) = None.

(** One encoded word with content [w]. *)
Definition wrap_word (cs w : bytes) : bytes := openWord cs ++ w ++ closeWord.
(** A quoted-printable writer whose every write fails. *)
Definition qp_failing (body : bytes) : bytes * option bytes := ([], Some (lit "short write")).

(** A message whose attachment carries its body. *)
Definition mail_with_body_attachment : Mail :=
  mkMail PlainText (lit "a@b.com") [lit "c@d.com"] (lit "Hi") (lit "hello")
         [mkAttachment (lit "notes.txt") (lit "text/plain") (lit "notes")] [].

(** The output of [ToBytes] for [mail_parts]. *)
Definition parts_out : bytes :=
  match ToBytes rand_counter (readFile_const long_bytes) go_qp mail_parts with
  | (Some out, _) => out
  | (None, _) => []
  end.

(** A [mail.go] message whose sender smuggles a [Bcc:] header line in and
    whose recipient is not an address. *)
Definition mail2_injected : Mail2 :=
  mkMail2 PlainText (lit "a@b.com" ++ crlf ++ lit "Bcc: x@y.com") [lit "not an address"]
          (lit "Hi") (lit "hello") [] [].

(** * Proofs *)

(** ** Correctness of the derivative matcher *)
Module RegexFacts.

Lemma nullable_spec (r : re) : nullable r = true <-> in_re r [].
Proof.
  split.
  - induction r; simpl; intros H; try discriminate.
    + constructor.
    + apply andb_true_iff in H as [H1 H2].
      change (@nil ascii) with (@nil ascii ++ []). constructor; auto.
    + apply orb_true_iff in H as [H|H]; [apply in_altl | apply in_altr]; auto.
    + constructor.
  - intros H. remember [] as e eqn:He.
    induction H; simpl; try discriminate; auto.
    + apply app_eq_nil in He as [-> ->]. rewrite IHin_re1, IHin_re2; auto.
    + rewrite IHin_re by auto; auto.
    + rewrite IHin_re by auto; apply orb_true_r.
Qed.

Lemma star_cons_inv (a : re) (w : bytes) :
  in_re (Star a) w ->
  forall c s, w = c :: s ->
  exists s1 t, s = s1 ++ t /\ in_re a (c :: s1) /\ in_re (Star a) t.
Proof.
  intros H. remember (Star a) as r eqn:Hr.
  induction H; intros c0 s0 Hw; try discriminate.
  injection Hr as ->.
  destruct s as [|x s1].
  - simpl in Hw. apply IHin_re2; auto.
  - injection Hw as Hx Hs. subst. exists s1, t. auto.
Qed.

Lemma cat_inv (a b : re) (w : bytes) :
  in_re (Cat a b) w -> exists s t, w = s ++ t /\ in_re a s /\ in_re b t.
Proof. intros H. inversion H; subst. eauto. Qed.

Lemma alt_inv (a b : re) (w : bytes) :
  in_re (Alt a b) w -> in_re a w \/ in_re b w.
Proof. intros H. inversion H; subst; auto. Qed.

Lemma cls_inv (p : ascii -> bool) (w : bytes) :
  in_re (Cls p) w -> exists c, w = [c] /\ p c = true.
Proof. intros H. inversion H; subst. eauto. Qed.

Lemma deriv_spec (c : ascii) (r : re) (s : bytes) :
  in_re (deriv c r) s <-> in_re r (c :: s).
Proof.
  revert s. induction r as [| |p|a IHa b IHb|a IHa b IHb|a IHa]; intros s; simpl.
  - split; intros H; inversion H.
  - split; intros H; inversion H.
  - destruct (p c) eqn:Hp; split; intros H.
    + inversion H; subst. now constructor.
    + apply cls_inv in H as (x & Hx & _). injection Hx as -> ->. constructor.
    + inversion H.
    + apply cls_inv in H as (x & Hx & Hpx). injection Hx as -> ->. congruence.
  - split; intros H.
    + destruct (nullable a) eqn:Hn.
      * apply alt_inv in H as [Hl|Hr].
        -- apply cat_inv in Hl as (s1 & t & -> & Hda & Hb).
           apply IHa in Hda.
           change (c :: s1 ++ t) with ((c :: s1) ++ t). now constructor.
        -- apply IHb in Hr. apply nullable_spec in Hn.
           change (c :: s) with ([] ++ c :: s). now constructor.
      * apply cat_inv in H as (s1 & t & -> & Hda & Hb).
        apply IHa in Hda.
        change (c :: s1 ++ t) with ((c :: s1) ++ t). now constructor.
    + apply cat_inv in H as (s1 & t & Heq & Ha & Hb).
      destruct s1 as [|x s1'].
      * simpl in Heq; subst.
        assert (Hn : nullable a = true) by (apply nullable_spec; auto).
        rewrite Hn. apply in_altr. apply IHb. auto.
      * injection Heq as Hx Hs. subst. apply IHa in Ha.
        destruct (nullable a); [apply in_altl|]; now constructor.
  - split; intros H.
    + apply alt_inv in H as [H|H]; [apply in_altl; apply IHa | apply in_altr; apply IHb]; auto.
    + apply alt_inv in H as [H|H]; [apply in_altl; apply IHa | apply in_altr; apply IHb]; auto.
  - split; intros H.
    + apply cat_inv in H as (s1 & t & -> & Hda & Hb).
      apply IHa in Hda.
      change (c :: s1 ++ t) with ((c :: s1) ++ t). now constructor.
    + destruct (star_cons_inv a _ H c s eq_refl) as (s1 & t & -> & H1 & H2).
      constructor; auto. apply IHa. auto.
Qed.

Lemma matches_spec (r : re) (s : bytes) : matches r s = true <-> in_re r s.
Proof.
  revert r. induction s as [|c s IH]; intros r; simpl.
  - apply nullable_spec.
  - rewrite IH. apply deriv_spec.
Qed.

Lemma star_cls_spec (p : ascii -> bool) (w : bytes) :
  in_re (Star (Cls p)) w <-> forallb p w = true.
Proof.
  split.
  - intros H. remember (Star (Cls p)) as r eqn:Hr.
    induction H; try discriminate; simpl; auto.
    injection Hr as ->. apply cls_inv in H as (x & -> & Hx).
    simpl. rewrite Hx. auto.
  - induction w as [|c w IH]; simpl; intros H.
    + constructor.
    + apply andb_true_iff in H as [H1 H2].
      change (c :: w) with ([c] ++ w). constructor; [constructor|]; auto.
Qed.

Lemma plus_cls_spec (p : ascii -> bool) (w : bytes) :
  in_re (Plus (Cls p)) w <-> w <> [] /\ forallb p w = true.
Proof.
  unfold Plus. split.
  - intros H. apply cat_inv in H as (s1 & t & -> & H1 & H2).
    apply cls_inv in H1 as (x & -> & Hx).
    apply star_cls_spec in H2. simpl. rewrite Hx, H2. split; [discriminate|auto].
  - intros [Hne Hall]. destruct w as [|c w]; [congruence|].
    simpl in Hall. apply andb_true_iff in Hall as [H1 H2].
    change (c :: w) with ([c] ++ w). constructor; [constructor|apply star_cls_spec]; auto.
Qed.

Lemma at_least2_cls_spec (p : ascii -> bool) (w : bytes) :
  in_re (AtLeast2 (Cls p)) w <-> 2 <= length w /\ forallb p w = true.
Proof.
  unfold AtLeast2. split.
  - intros H. apply cat_inv in H as (s1 & t & -> & H1 & H2).
    apply cat_inv in H2 as (s2 & t2 & -> & H2 & H3).
    apply cls_inv in H1 as (x & -> & Hx). apply cls_inv in H2 as (y & -> & Hy).
    apply star_cls_spec in H3. simpl.
    rewrite Hx, Hy, H3. split; [lia|auto].
  - intros [Hl Hall]. destruct w as [|c1 [|c2 w]]; simpl in Hl; try lia.
    simpl in Hall. apply andb_true_iff in Hall as [H1 Hall].
    apply andb_true_iff in Hall as [H2 H3].
    change (c1 :: c2 :: w) with ([c1] ++ [c2] ++ w).
    constructor; [constructor; auto|]. constructor; [constructor; auto|].
    apply star_cls_spec; auto.
Qed.

Lemma cls_char_spec (x : ascii) (w : bytes) : in_re (Cls (is_char x)) w <-> w = [x].
Proof.
  split.
  - intros H. apply cls_inv in H as (y & -> & Hy).
    unfold is_char in Hy. apply Ascii.eqb_eq in Hy. now subst.
  - intros ->. constructor. apply Ascii.eqb_refl.
Qed.

End RegexFacts.

Lemma ValidateEmail_in_re (s : bytes) : ValidateEmail s = true <-> in_re emailRegex s.
Proof. apply RegexFacts.matches_spec. Qed.

(** C4 (counterexample).  [a@com] has the shape the specification words
    (a local part, [@], and a single label [com] of letters, at least two
    long), yet [ValidateEmail] rejects it: the pattern needs a dot in the
    domain. *)
Lemma C4_single_label_domain_rejected :
  spec_email_shape (lit "a@com") /\ ValidateEmail (lit "a@com") = false.
Proof.
  split.
  - exists (lit "a"), [lit "com"].
    repeat split; try discriminate; simpl; auto.
    constructor; [split; [discriminate | reflexivity] | constructor].
  - reflexivity.
Qed.

(** C4 (amended).  [ValidateEmail s] is true exactly when [s] is a non-empty
    local part over letters, digits and [._%+-], then [@], then a non-empty
    run of letters, digits, dots and dashes, then a dot, then at least two
    letters. *)
Theorem C4_ValidateEmail_language (s : bytes) :
  ValidateEmail s = true <-> regex_email_shape s.
Proof.
  rewrite ValidateEmail_in_re. unfold emailRegex, regex_email_shape. split.
  - intros H.
    apply RegexFacts.cat_inv in H as (s1 & t1 & -> & H1 & H).
    apply RegexFacts.cat_inv in H as (s2 & t2 & -> & H2 & H).
    apply RegexFacts.cat_inv in H as (s3 & t3 & -> & H3 & H).
    apply RegexFacts.cat_inv in H as (s4 & t4 & -> & H4 & H5).
    apply RegexFacts.plus_cls_spec in H1 as [Hn1 Ha1].
    apply RegexFacts.plus_cls_spec in H3 as [Hn3 Ha3].
    apply RegexFacts.cls_char_spec in H2. apply RegexFacts.cls_char_spec in H4.
    apply RegexFacts.at_least2_cls_spec in H5 as [Hl5 Ha5]. subst.
    exists s1, s3, t4. repeat split; auto.
  - intros (local & mid & tld & -> & Hn1 & Ha1 & Hn3 & Ha3 & Hl5 & Ha5).
    constructor; [apply RegexFacts.plus_cls_spec; auto|].
    constructor; [apply RegexFacts.cls_char_spec; reflexivity|].
    constructor; [apply RegexFacts.plus_cls_spec; auto|].
    constructor; [apply RegexFacts.cls_char_spec; reflexivity|].
    apply RegexFacts.at_least2_cls_spec; auto.
Qed.

(** ** The base64 writer *)
Module Base64Facts.

Lemma mod76_inner (q j : nat) : 0 < j < 76 -> (76 * q + j) mod 76 = j.
Proof.
  intros Hj. rewrite Nat.add_comm, Nat.mul_comm, Nat.Div0.mod_add.
  apply Nat.mod_small. lia.
Qed.

Lemma mod76_end (q : nat) : (76 * q + 76) mod 76 = 0.
Proof.
  replace (76 * q + 76) with (0 + S q * 76) by lia.
  rewrite Nat.Div0.mod_add. reflexivity.
Qed.

Lemma wb_loop_app (a b : bytes) (idx : nat) :
  (forall i, i < length a -> (idx + i + 1) mod 76 <> 0) ->
  wb_loop idx (a ++ b) = a ++ wb_loop (idx + length a) b.
Proof.
  revert idx. induction a as [|c a IH]; intros idx H; cbn [wb_loop app length].
  - now rewrite Nat.add_0_r.
  - assert (H0 := H 0 ltac:(simpl; lia)). rewrite Nat.add_0_r in H0.
    apply Nat.eqb_neq in H0. rewrite H0. cbn [app]. f_equal.
    rewrite IH.
    + f_equal. f_equal. lia.
    + intros i Hi. replace (S idx + i + 1) with (idx + S i + 1) by lia.
      apply H. simpl. lia.
Qed.

Lemma split_at_76 (p : bytes) :
  76 <= length p -> exists a c b, p = a ++ c :: b /\ length a = 75.
Proof.
  intros Hl. exists (firstn 75 p).
  destruct (skipn 75 p) as [|c b] eqn:Hs.
  - apply (f_equal (@length ascii)) in Hs. rewrite length_skipn in Hs. simpl in Hs. lia.
  - exists c, b. split.
    + rewrite <- Hs. symmetry. apply firstn_skipn.
    + rewrite length_firstn. lia.
Qed.

Lemma wb_loop_wrap (n : nat) (p : bytes) (q : nat) :
  length p <= n -> wb_loop (76 * q) p = wrap_full_lines n p.
Proof.
  revert p q. induction n as [|n IH]; intros p q Hl.
  - destruct p; [reflexivity | simpl in Hl; lia].
  - cbn [wrap_full_lines]. destruct (76 <=? length p) eqn:E.
    + apply Nat.leb_le in E.
      destruct (split_at_76 p E) as (a & c & b & -> & Ha).
      rewrite wb_loop_app.
      2:{ intros i Hi. replace (76 * q + i + 1) with (76 * q + (i + 1)) by lia.
        rewrite mod76_inner; lia. }
      rewrite Ha. cbn [wb_loop].
      replace (76 * q + 75 + 1) with (76 * q + 76) by lia.
      rewrite mod76_end. cbn [Nat.eqb].
      replace (S (76 * q + 75)) with (76 * S q) by lia.
      replace (firstn 76 (a ++ c :: b)) with (a ++ [c]).
      2:{ replace 76 with (length a + 1) by lia. rewrite firstn_app_2. reflexivity. }
      replace (skipn 76 (a ++ c :: b)) with b.
      2:{ replace 76 with (length a + 1) by lia. rewrite skipn_app.
          rewrite skipn_all2 by lia. rewrite Nat.add_sub_swap, Nat.sub_diag by lia.
          reflexivity. }
      rewrite <- app_assoc. cbn [app]. rewrite (IH b (S q)).
      * reflexivity.
      * rewrite length_app in Hl. simpl in Hl. lia.
    + apply Nat.leb_gt in E.
      rewrite <- (app_nil_r p) at 1. rewrite wb_loop_app.
      * simpl. apply app_nil_r.
      * intros i Hi. replace (76 * q + i + 1) with (76 * q + (i + 1)) by lia.
        rewrite mod76_inner; lia.
Qed.

Lemma forallb_nth {A} (f : A -> bool) (l : list A) (d : A) (k : nat) :
  forallb f l = true -> f d = true -> f (nth k l d) = true.
Proof.
  revert k. induction l as [|x l IH]; intros k Hl Hd; destruct k; simpl in *; auto;
    apply andb_true_iff in Hl as [H1 H2]; auto.
Qed.

Lemma enc_char_not_crlf (z : Z) : is_crlf_byte (enc_char z) = false.
Proof.
  unfold enc_char.
  apply negb_true_iff.
  apply (forallb_nth (fun c => negb (is_crlf_byte c))); reflexivity.
Qed.

Lemma enc_char_not_pad (z : Z) : is_char pad_char (enc_char z) = false.
Proof.
  unfold enc_char.
  apply negb_true_iff.
  apply (forallb_nth (fun c => negb (is_char pad_char c))); reflexivity.
Qed.

Lemma dec_enc_char (z : Z) : (0 <= z < 64)%Z -> dec_char (enc_char z) = Some z.
Proof.
  intros Hz.
  assert (Hall : forallb (fun m => match dec_char (enc_char (Z.of_nat m)) with
                                   | Some y => Z.eqb y (Z.of_nat m)
                                   | None => false end) (seq 0 64) = true)
    by reflexivity.
  rewrite forallb_forall in Hall.
  specialize (Hall (Z.to_nat z)). rewrite in_seq in Hall.
  rewrite Z2Nat.id in Hall by lia.
  destruct (dec_char (enc_char z)) as [y|]; [|discriminate Hall; lia].
  - f_equal. apply Z.eqb_eq. apply Hall. lia.
Qed.

Lemma filter_keep_all {A} (f : A -> bool) (l : list A) :
  forallb f l = true -> filter f l = l.
Proof.
  induction l as [|x l IH]; simpl; auto.
  intros H. apply andb_true_iff in H as [H1 H2]. rewrite H1, IH; auto.
Qed.

Lemma strip_wb_loop (idx : nat) (p : bytes) :
  strip_crlf (wb_loop idx p) = strip_crlf p.
Proof.
  revert idx. induction p as [|c p IH]; intros idx; cbn [wb_loop]; auto.
  destruct ((idx + 1) mod 76 =? 0); unfold strip_crlf in *; simpl;
    rewrite IH; reflexivity.
Qed.

Lemma zcode_bound (c : ascii) : (0 <= zcode c < 256)%Z.
Proof. unfold zcode, code. pose proof (nat_ascii_bounded c). lia. Qed.

Lemma byte_of_Z_zcode (c : ascii) : byte_of_Z (zcode c) = c.
Proof.
  unfold byte_of_Z, byte_of. rewrite Z.mod_small by apply zcode_bound.
  unfold zcode, code. rewrite Nat2Z.id. apply ascii_nat_embedding.
Qed.

Lemma byte_of_Z_eq (x : Z) (c : ascii) : (x mod 256 = zcode c)%Z -> byte_of_Z x = c.
Proof.
  intros H. unfold byte_of_Z, byte_of. rewrite H.
  unfold zcode, code. rewrite Nat2Z.id. apply ascii_nat_embedding.
Qed.

Lemma sextet_bound (v s : Z) : (0 <= sextet v s < 64)%Z.
Proof. unfold sextet. apply Z.mod_pos_bound. lia. Qed.

Lemma group3 (a b c : Z) :
  (0 <= a < 256)%Z -> (0 <= b < 256)%Z -> (0 <= c < 256)%Z ->
  let v := (a * 2 ^ 16 + b * 2 ^ 8 + c)%Z in
  let w := (sextet v 18 * 2 ^ 18 + sextet v 12 * 2 ^ 12 + sextet v 6 * 2 ^ 6 + sextet v 0)%Z in
  ((w / 2 ^ 16) mod 256 = a /\ (w / 2 ^ 8) mod 256 = b /\ w mod 256 = c)%Z.
Proof.
  intros Ha Hb Hc v w. subst v w. unfold sextet.
  change (2 ^ 16)%Z with 65536%Z. change (2 ^ 8)%Z with 256%Z.
  change (2 ^ 18)%Z with 262144%Z. change (2 ^ 12)%Z with 4096%Z.
  change (2 ^ 6)%Z with 64%Z. change (2 ^ 0)%Z with 1%Z.
  Z.div_mod_to_equations. lia.
Qed.

Lemma group2 (a b : Z) :
  (0 <= a < 256)%Z -> (0 <= b < 256)%Z ->
  let v := (a * 2 ^ 16 + b * 2 ^ 8)%Z in
  let w := (sextet v 18 * 2 ^ 18 + sextet v 12 * 2 ^ 12 + sextet v 6 * 2 ^ 6)%Z in
  ((w / 2 ^ 16) mod 256 = a /\ (w / 2 ^ 8) mod 256 = b)%Z.
Proof.
  intros Ha Hb v w. subst v w. unfold sextet.
  change (2 ^ 16)%Z with 65536%Z. change (2 ^ 8)%Z with 256%Z.
  change (2 ^ 18)%Z with 262144%Z. change (2 ^ 12)%Z with 4096%Z.
  change (2 ^ 6)%Z with 64%Z.
  Z.div_mod_to_equations. lia.
Qed.

Lemma group1 (a : Z) :
  (0 <= a < 256)%Z ->
  let v := (a * 2 ^ 16)%Z in
  let w := (sextet v 18 * 2 ^ 18 + sextet v 12 * 2 ^ 12)%Z in
  ((w / 2 ^ 16) mod 256 = a)%Z.
Proof.
  intros Ha v w. subst v w. unfold sextet.
  change (2 ^ 16)%Z with 65536%Z.
  change (2 ^ 18)%Z with 262144%Z. change (2 ^ 12)%Z with 4096%Z.
  Z.div_mod_to_equations. lia.
Qed.

Lemma b64_encode_no_crlf (n : nat) (file : bytes) :
  length file <= n -> forallb (fun c => negb (is_crlf_byte c)) (b64_encode file) = true.
Proof.
  revert file. induction n as [|n IH]; intros file Hl.
  - destruct file; [reflexivity | simpl in Hl; lia].
  - destruct file as [|b0 [|b1 [|b2 rest]]]; simpl;
      rewrite ?enc_char_not_crlf; simpl; auto.
    apply IH. simpl in Hl. lia.
Qed.

Lemma b64_roundtrip_n (n : nat) (file : bytes) :
  length file <= n -> b64_decode (b64_encode file) = Some file.
Proof.
  revert file. induction n as [|n IH]; intros file Hl.
  - destruct file; [reflexivity | simpl in Hl; lia].
  - destruct file as [|b0 [|b1 [|b2 rest]]].
    + reflexivity.
    + cbn [b64_encode b64_decode].
      rewrite !dec_enc_char by apply sextet_bound.
      replace (is_char pad_char pad_char) with true by reflexivity. cbn [andb is_nil].
      rewrite (byte_of_Z_eq _ _ (group1 _ (zcode_bound b0))). reflexivity.
    + cbn [b64_encode b64_decode].
      rewrite !dec_enc_char by apply sextet_bound.
      rewrite enc_char_not_pad.
      replace (is_char pad_char pad_char) with true by reflexivity. cbn [andb is_nil].
      rewrite ?dec_enc_char by apply sextet_bound.
      destruct (group2 _ _ (zcode_bound b0) (zcode_bound b1)) as [H0 H1].
      rewrite (byte_of_Z_eq _ _ H0), (byte_of_Z_eq _ _ H1). reflexivity.
    + cbn [b64_encode b64_decode].
      rewrite !dec_enc_char by apply sextet_bound.
      rewrite !enc_char_not_pad. cbn [andb].
      rewrite ?dec_enc_char by apply sextet_bound.
      rewrite IH by (simpl in Hl; lia).
      destruct (group3 _ _ _ (zcode_bound b0) (zcode_bound b1) (zcode_bound b2))
        as [H0 [H1 H2]].
      rewrite (byte_of_Z_eq _ _ H0), (byte_of_Z_eq _ _ H1), (byte_of_Z_eq _ _ H2).
      reflexivity.
Qed.

End Base64Facts.

(** C1 (counterexample).  For the one-byte input [a] the part writer emits
    CRLF then [YQ==] and no CRLF after that last, short line, while the
    binary encoder as the specification words it (with or without the
    leading blank-line CRLF) ends with a CRLF. *)
Lemma C1_short_last_line_not_terminated :
  writeBytes (lit "a") = crlf ++ lit "YQ=="
  /\ spec_encodeBinary (lit "a") = lit "YQ==" ++ crlf
  /\ writeBytes (lit "a") <> spec_encodeBinary (lit "a")
  /\ writeBytes (lit "a") <> crlf ++ spec_encodeBinary (lit "a").
Proof. repeat split; vm_compute; congruence. Qed.

(** C1 (amended).  [writeBytes] appends a CRLF (ending the part headers),
    then the padded standard base64 encoding of its input cut into lines of
    76 characters, with a CRLF after each full 76-character line only: a
    shorter last line is not terminated. *)
Theorem C1_writeBytes_wraps_full_lines (file : bytes) :
  writeBytes file = crlf ++ wrap76 (b64_encode file).
Proof.
  unfold writeBytes, wrap76. f_equal.
  apply (Base64Facts.wb_loop_wrap _ _ 0). lia.
Qed.

(** C7.  Dropping the line breaks from what [writeBytes] emits and decoding
    the result as base64 gives back the input bytes. *)
Theorem C7_writeBytes_roundtrip (file : bytes) :
  b64_decode (strip_crlf (writeBytes file)) = Some file.
Proof.
  unfold writeBytes.
  change (strip_crlf (crlf ++ wb_loop 0 (b64_encode file)))
    with (strip_crlf (wb_loop 0 (b64_encode file))).
  rewrite Base64Facts.strip_wb_loop. unfold strip_crlf.
  rewrite Base64Facts.filter_keep_all
    by (apply (Base64Facts.b64_encode_no_crlf (length file)); lia).
  apply (Base64Facts.b64_roundtrip_n (length file)). lia.
Qed.

(** ** The assembly monad *)
Module MonadFacts.

Lemma bind_Ok {A B} (m : M A) (k : A -> M B) st a st' :
  m st = Ok a st' -> bind m k st = k a st'.
Proof. intros H. unfold bind. now rewrite H. Qed.

Lemma bind_Err {A B} (m : M A) (k : A -> M B) st e :
  m st = Err e -> bind m k st = Err e.
Proof. intros H. unfold bind. now rewrite H. Qed.

Lemma check_to_valid (l : list bytes) st :
  forallb ValidateEmail l = true -> check_to l st = Ok tt st.
Proof.
  induction l as [|a l IH]; simpl; auto.
  intros H. apply andb_true_iff in H as [H1 H2]. rewrite H1. simpl. auto.
Qed.

Lemma check_to_first_invalid (pre : list bytes) (a : bytes) (post : list bytes) st :
  forallb ValidateEmail pre = true -> ValidateEmail a = false ->
  check_to (pre ++ a :: post) st = Err (lit "invalid To email address: " ++ a).
Proof.
  induction pre as [|x pre IH]; simpl; intros Hpre Ha.
  - rewrite Ha. reflexivity.
  - apply andb_true_iff in Hpre as [H1 H2]. rewrite H1. simpl. auto.
Qed.

Lemma bytes_of_app (x y : list (ascii * bool)) : bytes_of (x ++ y) = bytes_of x ++ bytes_of y.
Proof. apply map_app. Qed.

Lemma bytes_of_tag (b : bool) (s : bytes) : bytes_of (tag b s) = s.
Proof. unfold bytes_of, tag. rewrite map_map. apply map_id. Qed.

End MonadFacts.

(** C2.  The preconditions of [ToBytes] are checked first and in order: an
    empty [To], then an empty [Body], then an invalid [From], then the first
    invalid entry of [To]; the first that fails gives its own error (the
    four messages differ, the last two name the address) and no output. *)
Theorem C2_precondition_order rr rf qp (m : Mail) :
  (To m = [] -> ToBytes rr rf qp m = (None, Some (lit "recipient list is empty")))
  /\ (To m <> [] -> Body m = [] ->
      ToBytes rr rf qp m = (None, Some (lit "email body is empty")))
  /\ (To m <> [] -> Body m <> [] -> ValidateEmail (From m) = false ->
      ToBytes rr rf qp m = (None, Some (lit "invalid From email address: " ++ From m)))
  /\ (forall pre a post, To m = pre ++ a :: post -> Body m <> [] ->
      ValidateEmail (From m) = true -> forallb ValidateEmail pre = true ->
      ValidateEmail a = false ->
      ToBytes rr rf qp m = (None, Some (lit "invalid To email address: " ++ a)))
  /\ lit "recipient list is empty" <> lit "email body is empty"
  /\ (forall x, lit "invalid From email address: " ++ x <> lit "recipient list is empty"
          /\ lit "invalid From email address: " ++ x <> lit "email body is empty"
          /\ lit "invalid To email address: " ++ x <> lit "recipient list is empty"
          /\ lit "invalid To email address: " ++ x <> lit "email body is empty")
  /\ (forall x y, lit "invalid From email address: " ++ x <> lit "invalid To email address: " ++ y).
Proof.
  unfold ToBytes, ToBytes_m.
  split; [|split; [|split; [|split; [|split; [|split]]]]].
  - intros ->. reflexivity.
  - intros HTo HBody. destruct (To m) as [|t ts]; [congruence|]. rewrite HBody. reflexivity.
  - intros HTo HBody HFrom. destruct (To m) as [|t ts]; [congruence|].
    destruct (Body m) as [|b bs]; [congruence|]. rewrite HFrom. reflexivity.
  - intros pre a post HTo HBody HFrom Hpre Ha. rewrite HTo.
    destruct (Body m) as [|b bs]; [congruence|]. rewrite HFrom.
    replace (is_nil (pre ++ a :: post)) with false by (destruct pre; reflexivity).
    cbn [is_nil negb].
    rewrite (MonadFacts.bind_Err _ _ _ _ (MonadFacts.check_to_first_invalid pre a post _ Hpre Ha)).
    reflexivity.
  - discriminate.
  - intros x. repeat split; discriminate.
  - intros x y. discriminate.
Qed.

(** C2 at a message whose second recipient is invalid. *)
Lemma C2_witness :
  (To mail_bad_to = [lit "c@d.com"] ++ lit "bad" :: [] /\ Body mail_bad_to <> []
   /\ ValidateEmail (From mail_bad_to) = true /\ forallb ValidateEmail [lit "c@d.com"] = true
   /\ ValidateEmail (lit "bad") = false)
  /\ ToBytes rand_counter readFile_missing go_qp mail_bad_to
     = (None, Some (lit "invalid To email address: " ++ lit "bad")).
Proof.
  split.
  - repeat split; try discriminate; vm_compute; reflexivity.
  - apply (proj1 (proj2 (proj2 (proj2 (C2_precondition_order rand_counter readFile_missing go_qp
                                          mail_bad_to))))
             [lit "c@d.com"] (lit "bad") []);
      try discriminate; vm_compute; reflexivity.
Defined.


(** C3.  [ToBytes] either fails with an error and no buffer, or succeeds
    with a buffer and no error: a buffer never comes with an error. *)
Theorem C3_error_without_buffer rr rf qp (m : Mail) :
  (exists e, ToBytes rr rf qp m = (None, Some e))
  \/ (exists out, ToBytes rr rf qp m = (Some out, None)).
Proof.
  unfold ToBytes. destruct (ToBytes_m rr rf qp m init_state); eauto.
Qed.

(** ** Running the assembly steps *)
Module AssemblyFacts.

Lemma bind_ext {A B} (m : M A) (k k' : A -> M B) st :
  (forall a st', k a st' = k' a st') -> bind m k st = bind m k' st.
Proof. intros H. unfold bind. destruct (m st); auto. Qed.

Lemma generateBoundary_Ok rr st :
  generateBoundary rr st
  = Ok (render_boundary (fill16 (fst (rr (draws st))))) (mkState (msg st) (S (draws st))).
Proof. unfold generateBoundary. destruct (rr (draws st)); reflexivity. Qed.

Lemma tag_app b (x y : bytes) : tag b (x ++ y) = tag b x ++ tag b y.
Proof. apply map_app. Qed.

Lemma write_headers_Ok f t s st :
  write_headers f t s st
  = Ok tt (mkState (msg st ++ tag false (header_block f t s)) (draws st)).
Proof.
  unfold write_headers, header_block, bind, write_lit. cbn [msg draws].
  rewrite !tag_app, !app_assoc. reflexivity.
Qed.

Lemma write_body_part_go_qp mt body st :
  write_body_part go_qp mt body st
  = Ok tt (mkState (msg st ++ tag false (body_part_headers mt)
                    ++ tag true (quotedprintable_body body)) (draws st)).
Proof.
  unfold write_body_part, write_qp, go_qp, body_part_headers, bind, write_lit, write_enc, ret.
  cbn [msg draws]. rewrite !tag_app, !app_assoc. reflexivity.
Qed.

(** Under the preconditions, [ToBytes_m] starts with the four header lines. *)
Lemma ToBytes_m_checked rr rf qp (m : Mail) st :
  To m <> [] -> Body m <> [] -> ValidateEmail (From m) = true ->
  forallb ValidateEmail (To m) = true ->
  ToBytes_m rr rf qp m st =
  (boundary <- generateBoundary rr;;
   let hasAttachments := negb (is_nil (Attachment m)) in
   let hasInline := negb (is_nil (Inline m)) in
   (if hasAttachments || hasInline then
      write_lit (lit "Content-Type: multipart/mixed; boundary=" ++ boundary ++ crlf ++ crlf);;
      write_lit (lit "--" ++ boundary ++ crlf)
    else ret tt);;
   (if hasInline then
      relatedBoundary <- generateBoundary rr;;
      write_lit (lit "Content-Type: multipart/related; boundary=" ++ relatedBoundary ++ crlf ++ crlf);;
      write_lit (lit "--" ++ relatedBoundary ++ crlf);;
      write_body_part qp (MT m) (Body m);;
      write_inlines relatedBoundary (Inline m);;
      write_lit (crlf ++ lit "--" ++ relatedBoundary ++ lit "--" ++ crlf)
    else
      write_body_part qp (MT m) (Body m));;
   (if hasAttachments then write_attachments rf boundary (Attachment m) else ret tt);;
   (if hasAttachments || hasInline then
      write_lit (crlf ++ lit "--" ++ boundary ++ lit "--" ++ crlf)
    else ret tt))
    (mkState (msg st ++ tag false (header_block (From m) (To m) (Subject m))) (draws st)).
Proof.
  intros HTo HBody HFrom HAll. unfold ToBytes_m.
  destruct (To m) as [|t ts]; [congruence|].
  destruct (Body m) as [|b bs]; [congruence|].
  rewrite HFrom. cbn [is_nil negb].
  rewrite (MonadFacts.bind_Ok _ _ _ _ _ (MonadFacts.check_to_valid _ st HAll)).
  rewrite (MonadFacts.bind_Ok _ _ _ _ _ (write_headers_Ok _ _ _ st)).
  reflexivity.
Qed.


Lemma bind_assoc {A B C} (m : M A) (k1 : A -> M B) (k2 : B -> M C) st :
  bind (bind m k1) k2 st = bind m (fun a => bind (k1 a) k2) st.
Proof. unfold bind. destruct (m st); reflexivity. Qed.

Lemma bind_write_lit {B} s (k : unit -> M B) st :
  bind (write_lit s) k st = k tt (mkState (msg st ++ tag false s) (draws st)).
Proof. reflexivity. Qed.

Lemma bind_ret {A B} (a : A) (k : A -> M B) st : bind (ret a) k st = k a st.
Proof. reflexivity. Qed.

Lemma grows_ret {A} (a : A) : grows (ret a).
Proof. intros st b st' H. injection H as _ <-. exists []. now rewrite app_nil_r. Qed.

Lemma grows_throw {A} e : grows (@throw A e).
Proof. intros st b st' H. discriminate. Qed.

Lemma grows_bind {A B} (m : M A) (k : A -> M B) :
  grows m -> (forall a, grows (k a)) -> grows (bind m k).
Proof.
  intros Hm Hk st b st' H. unfold bind in H. destruct (m st) as [a st1|e] eqn:E; [|discriminate].
  destruct (Hm _ _ _ E) as [s1 E1]. destruct (Hk a _ _ _ H) as [s2 E2].
  exists (s1 ++ s2). rewrite E2, E1. symmetry. apply app_assoc.
Qed.

Lemma grows_if {A} (b : bool) (m1 m2 : M A) : grows m1 -> grows m2 -> grows (if b then m1 else m2).
Proof. destruct b; auto. Qed.

Lemma grows_write_lit s : grows (write_lit s).
Proof. intros st a st' H. injection H as _ <-. eexists. reflexivity. Qed.

Lemma grows_write_enc s : grows (write_enc s).
Proof. intros st a st' H. injection H as _ <-. eexists. reflexivity. Qed.

Lemma grows_generateBoundary rr : grows (generateBoundary rr).
Proof.
  intros st a st' H. rewrite generateBoundary_Ok in H. injection H as _ <-.
  exists []. now rewrite app_nil_r.
Qed.

Lemma grows_m_writeBytes f : grows (m_writeBytes f).
Proof. apply grows_write_enc. Qed.

Lemma grows_m_writeFile rf name : grows (m_writeFile rf name).
Proof.
  unfold m_writeFile. destruct (rf name) as [file [e|]].
  - apply grows_throw.
  - apply grows_m_writeBytes.
Qed.

Lemma grows_write_qp qp body : grows (write_qp qp body).
Proof.
  unfold write_qp. destruct (qp body) as [out err].
  apply grows_bind; [apply grows_write_enc|]. intros _.
  destruct err; [apply grows_throw | apply grows_ret].
Qed.

Create HintDb grows.

#[local] Hint Resolve grows_ret grows_throw grows_bind grows_if grows_write_lit grows_write_enc
  grows_generateBoundary grows_m_writeBytes grows_m_writeFile grows_write_qp : grows.

Lemma grows_write_body_part qp mt body : grows (write_body_part qp mt body).
Proof. unfold write_body_part. eauto 8 with grows. Qed.

Lemma grows_write_inlines b files : grows (write_inlines b files).
Proof. induction files; cbn [write_inlines]; eauto 12 with grows. Qed.

Lemma grows_write_attachments rf b files : grows (write_attachments rf b files).
Proof. induction files; cbn [write_attachments]; eauto 12 with grows. Qed.

#[local] Hint Resolve grows_write_body_part grows_write_inlines grows_write_attachments : grows.

(** After the header lines, [ToBytes_m] writes a line starting with
    [Content-Type: ], whichever structure it chooses. *)
Lemma ToBytes_m_after_headers rr rf qp (m : Mail) st u st' :
  To m <> [] -> Body m <> [] -> ValidateEmail (From m) = true ->
  forallb ValidateEmail (To m) = true ->
  ToBytes_m rr rf qp m st = Ok u st' ->
  exists rest sfx, msg st' = msg st ++ tag false (header_block (From m) (To m) (Subject m))
                               ++ tag false (lit "Content-Type: " ++ rest) ++ sfx.
Proof.
  intros HTo HBody HFrom HAll E.
  rewrite (ToBytes_m_checked rr rf qp m st HTo HBody HFrom HAll) in E.
  rewrite (MonadFacts.bind_Ok _ _ _ _ _ (generateBoundary_Ok _ _)) in E.
  cbv beta zeta in E.
  destruct (Attachment m) as [|f fs], (Inline m) as [|i is]; cbn [is_nil negb orb] in E;
    rewrite ?bind_ret in E; cbv beta in E; cbn [msg draws] in E; unfold write_body_part in E;
    rewrite ?bind_assoc, ?bind_write_lit in E; cbv beta in E; cbn [msg draws] in E;
    (match type of E with ?mm ?s = Ok _ _ =>
       let G := fresh "G" in
       assert (G : grows mm) by eauto 20 with grows; destruct (G _ _ _ E) as [sfx Esfx]
     end);
    rewrite Esfx; cbn [msg]; rewrite <- !app_assoc;
    try change (lit "Content-Type: multipart/mixed; boundary=")
      with (lit "Content-Type: " ++ lit "multipart/mixed; boundary=");
    rewrite <- ?app_assoc; do 2 eexists; reflexivity.
Qed.

End AssemblyFacts.

(** C10.  Without inline files and with valid addresses, the validating
    variant of [ToBytes] (part_000) and the one of [mail.go] give the same
    result when they draw from the same random source; they also give the
    same error when [To] or [Body] is empty. *)
Theorem C10_variants_agree rr rf qp (m : Mail) (ct : bytes) :
  (Inline m = [] -> ValidateEmail (From m) = true -> forallb ValidateEmail (To m) = true ->
   ToBytes rr rf qp m = ToBytes2 rr rf qp (mail2_of m ct))
  /\ (To m = [] \/ Body m = [] -> ToBytes rr rf qp m = ToBytes2 rr rf qp (mail2_of m ct)).
Proof.
  split.
  - intros HInl HFrom HAll. unfold ToBytes, ToBytes2, ToBytes_m, ToBytes2_m, mail2_of.
    cbn [To2 Body2 From2 Subject2 MT2 Attachment2]. rewrite HInl.
    destruct (To m) as [|t ts]; [reflexivity|].
    destruct (Body m) as [|b bs]; [reflexivity|].
    rewrite HFrom. cbn [is_nil negb].
    rewrite (MonadFacts.bind_Ok _ _ _ _ _ (MonadFacts.check_to_valid _ init_state HAll)).
    destruct (Attachment m); reflexivity.
  - intros [HTo|HBody]; unfold ToBytes, ToBytes2, ToBytes_m, ToBytes2_m, mail2_of;
      cbn [To2 Body2 From2 Subject2 MT2 Attachment2].
    + rewrite HTo. reflexivity.
    + destruct (To m); [reflexivity|]. rewrite HBody. reflexivity.
Qed.

(** C6.  A message with neither attachments nor inline files that passes
    the preconditions is written without a multipart wrapper: the four
    header lines, then the body part's [Content-Type] and
    [Content-Transfer-Encoding] lines at top level, then the
    quoted-printable body.  The output does not depend on the random
    source, so no boundary is generated into it. *)
Theorem C6_no_multipart_without_parts rr rf (m : Mail) :
  Attachment m = [] -> Inline m = [] -> To m <> [] -> Body m <> [] ->
  ValidateEmail (From m) = true -> forallb ValidateEmail (To m) = true ->
  ToBytes rr rf go_qp m
  = (Some (header_block (From m) (To m) (Subject m) ++ body_part_headers (MT m)
           ++ quotedprintable_body (Body m)), None).
Proof.
  intros HAtt HInl HTo HBody HFrom HAll. unfold ToBytes.
  rewrite (AssemblyFacts.ToBytes_m_checked rr rf go_qp m init_state HTo HBody HFrom HAll).
  rewrite (MonadFacts.bind_Ok _ _ _ _ _ (AssemblyFacts.generateBoundary_Ok _ _)).
  cbv beta zeta. rewrite HAtt, HInl. cbn [is_nil negb orb].
  rewrite AssemblyFacts.bind_ret.
  rewrite (MonadFacts.bind_Ok _ _ _ _ _ (AssemblyFacts.write_body_part_go_qp _ _ _)).
  cbv beta. cbn [bind ret msg init_state].
  rewrite !MonadFacts.bytes_of_app, !MonadFacts.bytes_of_tag. cbn [bytes_of map app].
  rewrite app_assoc. reflexivity.
Qed.

(** A message as in the scenario of the specification. *)
Lemma C6_witness :
  (Attachment mail_plain = [] /\ Inline mail_plain = [] /\ To mail_plain <> []
   /\ Body mail_plain <> [] /\ ValidateEmail (From mail_plain) = true
   /\ forallb ValidateEmail (To mail_plain) = true)
  /\ ToBytes rand_counter readFile_missing go_qp mail_plain
     = (Some (header_block (From mail_plain) (To mail_plain) (Subject mail_plain)
              ++ body_part_headers (MT mail_plain) ++ quotedprintable_body (Body mail_plain)), None).
Proof.
  split.
  - repeat split; try discriminate; vm_compute; reflexivity.
  - apply C6_no_multipart_without_parts; try discriminate; vm_compute; reflexivity.
Defined.

(** C5.  A failing random source is not reported: with every read of
    [crypto/rand] failing, [ToBytes] still returns a message and no error. *)
Lemma C5_random_failure_ignored :
  snd (rand_failing 0) <> None
  /\ exists out, ToBytes rand_failing (readFile_const (lit "data")) go_qp mail_with_file_attachment
                = (Some out, None).
Proof.
  split; [discriminate|]. eexists. vm_compute. reflexivity.
Qed.

(** C9 (counterexample).  A subject of ASCII bytes only is not always
    passed through: [mime.QEncoding] also encodes control bytes such as a
    line feed, so the header lines differ from the ones the specification
    describes. *)
Lemma C9_ascii_control_subject_encoded :
  forallb (fun c => code c <? 128) (Subject mail_ctrl_subject) = true
  /\ exists out, ToBytes rand_counter readFile_missing go_qp mail_ctrl_subject = (Some out, None)
     /\ is_prefix (spec_header_block (From mail_ctrl_subject) (To mail_ctrl_subject)
                                     (Subject mail_ctrl_subject)) out = false
     /\ is_prefix (header_block (From mail_ctrl_subject) (To mail_ctrl_subject)
                                (Subject mail_ctrl_subject)) out = true.
Proof.
  split; [reflexivity|]. eexists. split; [vm_compute; reflexivity|].
  split; vm_compute; reflexivity.
Qed.

(** C9.  A message that passes the preconditions and is assembled starts
    with the lines [From: ], [To: ] with the recipients joined by a comma
    and a space in their order, [Subject: ] with the subject as
    [mime.QEncoding] writes it (Q-encoded in UTF-8 exactly when a byte is
    a control byte other than tab or is outside printable ASCII), and
    [MIME-Version: 1.0], each ended by CRLF; the next line is a
    [Content-Type] line. *)
Theorem C9_header_lines rr rf qp (m : Mail) (out : bytes) :
  To m <> [] -> Body m <> [] -> ValidateEmail (From m) = true ->
  forallb ValidateEmail (To m) = true ->
  ToBytes rr rf qp m = (Some out, None) ->
  exists rest, out = header_block (From m) (To m) (Subject m) ++ lit "Content-Type: " ++ rest.
Proof.
  intros HTo HBody HFrom HAll H. unfold ToBytes in H.
  destruct (ToBytes_m rr rf qp m init_state) as [u st|e] eqn:E; [|discriminate].
  injection H as <-.
  destruct (AssemblyFacts.ToBytes_m_after_headers rr rf qp m init_state u st HTo HBody HFrom HAll E)
    as (rest & sfx & Hst).
  exists (rest ++ bytes_of sfx). rewrite Hst. cbn [msg init_state app].
  rewrite !MonadFacts.bytes_of_app, !MonadFacts.bytes_of_tag. now rewrite <- !app_assoc.
Qed.

Lemma C9_witness :
  (To mail_ctrl_subject <> [] /\ Body mail_ctrl_subject <> []
   /\ ValidateEmail (From mail_ctrl_subject) = true
   /\ forallb ValidateEmail (To mail_ctrl_subject) = true
   /\ ToBytes rand_counter readFile_missing go_qp mail_ctrl_subject = (Some ctrl_subject_out, None))
  /\ exists rest, ctrl_subject_out
       = header_block (From mail_ctrl_subject) (To mail_ctrl_subject) (Subject mail_ctrl_subject)
         ++ lit "Content-Type: " ++ rest.
Proof.
  split.
  - repeat split; try discriminate; vm_compute; reflexivity.
  - apply (C9_header_lines rand_counter readFile_missing go_qp mail_ctrl_subject ctrl_subject_out);
      try discriminate; vm_compute; reflexivity.
Defined.

(** C10 at a message with an attachment read from the file system. *)
Lemma C10_witness :
  (Inline mail_with_file_attachment = [] /\ ValidateEmail (From mail_with_file_attachment) = true
   /\ forallb ValidateEmail (To mail_with_file_attachment) = true)
  /\ ToBytes rand_counter (readFile_const (lit "data")) go_qp mail_with_file_attachment
     = ToBytes2 rand_counter (readFile_const (lit "data")) go_qp
                (mail2_of mail_with_file_attachment (lit "text/plain")).
Proof.
  split.
  - repeat split; vm_compute; reflexivity.
  - apply (proj1 (C10_variants_agree rand_counter (readFile_const (lit "data")) go_qp
                   mail_with_file_attachment (lit "text/plain"))); vm_compute; reflexivity.
Defined.

(** ** Lines of a buffer *)
Module LineFacts.

Lemma list_ind2 {A} (P : list A -> Prop) :
  P [] -> (forall x, P [x]) -> (forall x y r, P r -> P (y :: r) -> P (x :: y :: r)) ->
  forall l, P l.
Proof.
  intros H0 H1 H2.
  refine (fix IH l := match l with
                      | [] => H0
                      | x :: l1 =>
                          match l1 as l2 return P l2 -> P (x :: l2) with
                          | [] => fun _ => H1 x
                          | y :: r => fun Hyr => H2 x y r (IH r) Hyr
                          end (IH l1)
                      end).
Qed.

Lemma lines_of_cons2 x y r :
  lines_of (x :: y :: r)
  = if is_char CR (fst x) && is_char LF (fst y) then [] :: lines_of r
    else cons_first x (lines_of (y :: r)).
Proof. reflexivity. Qed.

Lemma lines_of_nonnil l : lines_of l <> [].
Proof.
  induction l as [|x|x y r IHr IHyr] using list_ind2; try discriminate.
  rewrite lines_of_cons2. destruct (_ && _); [discriminate|].
  destruct (lines_of (y :: r)); cbn [cons_first]; discriminate.
Qed.

Lemma cons_first_app {A} (x : A) ls ms :
  ls <> [] -> cons_first x (ls ++ ms) = cons_first x ls ++ ms.
Proof. destruct ls; [congruence | reflexivity]. Qed.

Lemma lines_of_crlf_app x y t1 t2 :
  lines_of (x ++ (CR, t1) :: (LF, t2) :: y) = lines_of x ++ lines_of y.
Proof.
  induction x as [|a|a b r IHr IHbr] using list_ind2.
  - reflexivity.
  - cbn [app]. rewrite lines_of_cons2. cbn [fst].
    replace (is_char LF CR) with false by reflexivity.
    rewrite andb_false_r. reflexivity.
  - change ((a :: b :: r) ++ (CR, t1) :: (LF, t2) :: y)
      with (a :: b :: (r ++ (CR, t1) :: (LF, t2) :: y)).
    rewrite !lines_of_cons2. destruct (_ && _).
    + rewrite IHr. reflexivity.
    + change (b :: r ++ (CR, t1) :: (LF, t2) :: y) with ((b :: r) ++ (CR, t1) :: (LF, t2) :: y).
      rewrite IHbr. apply cons_first_app, lines_of_nonnil.
Qed.

Lemma lines_of_noCR l :
  forallb (fun x => negb (is_char CR (fst x))) l = true -> lines_of l = [l].
Proof.
  induction l as [|x|x y r IHr IHyr] using list_ind2; intros H; try reflexivity.
  cbn [forallb] in H. apply andb_true_iff in H as [Hx H].
  rewrite lines_of_cons2. apply negb_true_iff in Hx. rewrite Hx. cbn [andb].
  rewrite IHyr by exact H. reflexivity.
Qed.

Lemma noCR_tag b s : forallb (fun x => negb (is_char CR (fst x))) (tag b s) = noCR s.
Proof.
  unfold noCR, tag. induction s as [|c s IH]; cbn [map forallb fst]; [reflexivity|].
  now rewrite IH.
Qed.

Lemma ok_nil : encoded_lines_ok [] = true.
Proof. reflexivity. Qed.

Lemma ok_crlf_app x y t1 t2 :
  encoded_lines_ok (x ++ (CR, t1) :: (LF, t2) :: y) = encoded_lines_ok x && encoded_lines_ok y.
Proof. unfold encoded_lines_ok. rewrite lines_of_crlf_app. apply forallb_app. Qed.

Lemma In_lines_of ln l : In ln (lines_of l) -> forall z, In z ln -> In z l.
Proof.
  revert ln. induction l as [|x|x y r IHr IHyr] using list_ind2; intros ln Hln z Hz.
  - destruct Hln as [<-|[]]. destruct Hz.
  - destruct Hln as [<-|[]]. exact Hz.
  - rewrite lines_of_cons2 in Hln. destruct (_ && _).
    + destruct Hln as [<-|Hln]; [destruct Hz|]. right; right. eapply IHr; eauto.
    + destruct (lines_of (y :: r)) as [|l0 ls] eqn:E; [now apply lines_of_nonnil in E|].
      cbn [cons_first] in Hln. destruct Hln as [<-|Hln].
      * destruct Hz as [<-|Hz]; [now left|]. right.
        apply (IHyr l0); [rewrite ?E; now left | exact Hz].
      * right. apply (IHyr ln); [rewrite ?E; now right | exact Hz].
Qed.

(** A buffer with no encoder byte has only acceptable lines. *)
Lemma ok_untagged l : existsb snd l = false -> encoded_lines_ok l = true.
Proof.
  intros H. unfold encoded_lines_ok. apply forallb_forall. intros ln Hln.
  unfold line_ok. apply orb_true_iff. left. apply negb_true_iff.
  destruct (existsb snd ln) eqn:E; auto.
  apply existsb_exists in E as [z [Hz Hs]].
  assert (existsb snd l = true) by (apply existsb_exists; eauto using In_lines_of).
  congruence.
Qed.

Lemma ok_tag_false s : encoded_lines_ok (tag false s) = true.
Proof.
  apply ok_untagged. induction s; cbn; auto.
Qed.

Lemma ok_single l :
  forallb (fun x => negb (is_char CR (fst x))) l = true -> length l <= 76 ->
  encoded_lines_ok l = true.
Proof.
  intros H Hl. unfold encoded_lines_ok. rewrite lines_of_noCR by exact H.
  cbn [forallb]. unfold line_ok. apply andb_true_iff. split; auto.
  apply orb_true_iff. right. now apply Nat.leb_le.
Qed.

Lemma fresh_ok_app o s :
  fresh o -> encoded_lines_ok (o ++ s) = encoded_lines_ok o && encoded_lines_ok s.
Proof.
  intros [->|(x & t1 & t2 & ->)]; [reflexivity|].
  rewrite <- app_assoc. cbn [app].
  rewrite ok_crlf_app.
  replace (x ++ [(CR, t1); (LF, t2)]) with (x ++ (CR, t1) :: (LF, t2) :: []) by reflexivity.
  rewrite ok_crlf_app, ok_nil, andb_true_r. reflexivity.
Qed.

Lemma ends_crlf_spec s : ends_crlf s = true -> exists s0, s = s0 ++ crlf.
Proof.
  unfold ends_crlf. intros H.
  rewrite <- (rev_involutive s).
  destruct (rev s) as [|b1 [|b2 r]]; try discriminate.
  apply andb_true_iff in H as [H1 H2]. unfold is_char in H1, H2.
  apply Ascii.eqb_eq in H1, H2. subst.
  exists (rev r). cbn [rev]. rewrite <- app_assoc. reflexivity.
Qed.

Lemma fresh_app_ends l b s : ends_crlf s = true -> fresh (l ++ tag b s).
Proof.
  intros H. apply ends_crlf_spec in H as [s0 ->]. right.
  exists (l ++ tag b s0), b, b. unfold tag. rewrite map_app, app_assoc. reflexivity.
Qed.

Lemma tag_crlf_app b s : tag b (crlf ++ s) = (CR, b) :: (LF, b) :: tag b s.
Proof. reflexivity. Qed.

End LineFacts.

(** ** Line lengths of the two encoders *)
Module EncoderLines.
Import LineFacts.

Lemma noCR_app a b : noCR (a ++ b) = noCR a && noCR b.
Proof. apply forallb_app. Qed.

Lemma hex_noCR n : negb (is_char CR (nth n upperhex "0"%char)) = true.
Proof. do 16 (destruct n as [|n]; [reflexivity|]). destruct n; reflexivity. Qed.

Lemma ok_tag_line ln :
  length ln <= 76 -> noCR ln = true -> encoded_lines_ok (tag true ln) = true.
Proof.
  intros Hl Hn. apply ok_single; [now rewrite noCR_tag|].
  unfold tag. now rewrite length_map.
Qed.

Lemma emit_line o ln :
  fresh (tag true o) -> encoded_lines_ok (tag true o) = true ->
  length ln <= 76 -> noCR ln = true ->
  encoded_lines_ok (tag true (o ++ ln)) = true.
Proof.
  intros Hf Ho Hl Hn. rewrite AssemblyFacts.tag_app, fresh_ok_app by exact Hf.
  rewrite Ho, ok_tag_line; auto.
Qed.

Lemma emit_line_crlf o ln :
  fresh (tag true o) -> encoded_lines_ok (tag true o) = true ->
  length ln <= 76 -> noCR ln = true ->
  fresh (tag true (o ++ ln ++ crlf)) /\ encoded_lines_ok (tag true (o ++ ln ++ crlf)) = true.
Proof.
  intros Hf Ho Hl Hn. split.
  - apply (fresh_app_ends [] true). unfold ends_crlf. rewrite !rev_app_distr. reflexivity.
  - rewrite app_assoc, AssemblyFacts.tag_app. change (tag true crlf) with [(CR, true); (LF, true)].
    rewrite ok_crlf_app, ok_nil, andb_true_r. apply emit_line; auto.
Qed.

Lemma QInv_intro w :
  fresh (tag true (qp_out w)) -> encoded_lines_ok (tag true (qp_out w)) = true ->
  length (qp_line w) <= 75 -> noCR (qp_line w) = true -> QInv w.
Proof. intros H1 H2 H3 H4. exact (conj H1 (conj H2 (conj H3 H4))). Qed.

Lemma insertCRLF_inv line cr out :
  QInv (mkQP [] cr out) -> length line <= 76 -> noCR line = true ->
  QInv (qp_insertCRLF (mkQP line cr out)).
Proof.
  intros (Hf & Ho & _ & _) Hl Hn. unfold qp_insertCRLF, qp_flush. cbn [qp_line qp_out qp_cr] in *.
  destruct (emit_line_crlf out line Hf Ho Hl Hn) as [H1 H2].
  apply QInv_intro; cbn [qp_line qp_out qp_cr]; auto. cbn [length]. lia.
Qed.

Lemma QInv_clear line cr out : QInv (mkQP line cr out) -> QInv (mkQP [] cr out).
Proof. intros (Hf & Ho & _ & _). apply QInv_intro; cbn [qp_line qp_out qp_cr]; auto. cbn [length]. lia. Qed.

Lemma softbreak_inv w : QInv w -> QInv (qp_insertSoftLineBreak w).
Proof.
  destruct w as [line cr out]. intros H. unfold qp_insertSoftLineBreak. cbn [qp_line qp_cr qp_out].
  destruct H as (Hf & Ho & Hl & Hn). cbn [qp_line qp_out] in *.
  apply insertCRLF_inv.
  - apply (QInv_clear line cr out). apply QInv_intro; cbn [qp_line qp_out qp_cr]; auto.
  - rewrite length_app. cbn [length]. lia.
  - rewrite noCR_app, Hn. reflexivity.
Qed.

Lemma softbreak_line w : qp_line (qp_insertSoftLineBreak w) = [].
Proof. reflexivity. Qed.

Lemma encode_inv b w : QInv w -> QInv (qp_encode b w).
Proof.
  intros H. unfold qp_encode.
  destruct (Z.of_nat lineMaxLen - 1 - Z.of_nat (length (qp_line w)) <? 3)%Z eqn:E.
  - pose proof (softbreak_inv w H) as (Hf & Ho & _ & _).
    apply QInv_intro; cbn [qp_line qp_out qp_cr]; auto.
    + rewrite softbreak_line. cbn. lia.
    + rewrite softbreak_line. cbn [app noCR forallb]. unfold hex_hi, hex_lo.
      rewrite !hex_noCR. reflexivity.
  - destruct H as (Hf & Ho & Hl & Hn). apply Z.ltb_ge in E. unfold lineMaxLen in E.
    apply QInv_intro; cbn [qp_line qp_out qp_cr]; auto.
    + rewrite length_app. cbn [length]. lia.
    + rewrite noCR_app, Hn. cbn [noCR forallb]. unfold hex_hi, hex_lo.
      rewrite !hex_noCR. reflexivity.
Qed.

Lemma checkLastByte_inv w : QInv w -> QInv (qp_checkLastByte w).
Proof.
  destruct w as [line cr out]. intros H. unfold qp_checkLastByte. cbn [qp_line qp_cr qp_out].
  destruct line as [|c l] eqn:El; [exact H|].
  destruct (isWhitespace _); [|exact H].
  apply encode_inv. destruct H as (Hf & Ho & Hl & Hn). cbn [qp_line qp_out] in *.
  assert (Hsplit : c :: l = removelast (c :: l) ++ [last (c :: l) "000"%char])
    by (apply app_removelast_last; discriminate).
  apply QInv_intro; cbn [qp_line qp_out qp_cr]; auto.
  - rewrite Hsplit in Hl. rewrite length_app in Hl. cbn [length] in Hl. lia.
  - rewrite Hsplit, noCR_app in Hn. apply andb_true_iff in Hn as [Hn _]. exact Hn.
Qed.

Lemma write_byte_inv w b : QInv w -> QInv (qp_write_byte w b).
Proof.
  intros H. unfold qp_write_byte.
  destruct (is_char LF b || is_char CR b) eqn:Eb.
  - destruct (qp_cr w && is_char LF b).
    + destruct w; exact H.
    + apply softbreak_inv in H as H'.
      assert (Hw : QInv (if is_char CR b then mkQP (qp_line w) true (qp_out w) else w))
        by (destruct (is_char CR b); [destruct w; exact H | exact H]).
      apply checkLastByte_inv in Hw.
      destruct (qp_checkLastByte _) as [line cr out] eqn:Ec.
      destruct Hw as (Hf & Ho & Hl & Hn). cbn [qp_line qp_out] in *.
      apply insertCRLF_inv; auto.
      apply (QInv_clear line cr out). apply QInv_intro; cbn [qp_line qp_out qp_cr]; auto.
  - apply orb_false_iff in Eb as [_ HCR].
    assert (H1 : QInv (if length (qp_line w) =? lineMaxLen - 1 then qp_insertSoftLineBreak w else w)
                 /\ length (qp_line (if length (qp_line w) =? lineMaxLen - 1
                                     then qp_insertSoftLineBreak w else w)) <= 74).
    { destruct (Nat.eqb_spec (length (qp_line w)) (lineMaxLen - 1)) as [E|E].
      - split; [now apply softbreak_inv | rewrite softbreak_line; cbn; lia].
      - split; [exact H|]. destruct H as (_ & _ & Hl & _). unfold lineMaxLen in E. lia. }
    destruct H1 as [(Hf & Ho & Hl & Hn) Hl74].
    apply QInv_intro; cbn [qp_line qp_out qp_cr]; auto.
    + rewrite length_app. cbn [length]. lia.
    + rewrite noCR_app, Hn. cbn [noCR forallb]. rewrite HCR. reflexivity.
Qed.

Lemma write_inv w p : QInv w -> QInv (qp_write w p).
Proof.
  unfold qp_write. revert w. induction p as [|b p IH]; intros w H; cbn [fold_left]; auto.
  apply IH, write_byte_inv, H.
Qed.

Lemma Write_loop_inv p : forall w pending, QInv w -> QInv (qp_Write_loop w pending p).
Proof.
  induction p as [|b p IH]; intros w pending H; cbn [qp_Write_loop].
  - now apply write_inv.
  - destruct (qp_batched b); apply IH; auto. apply encode_inv, write_inv, H.
Qed.

Lemma Close_ok w : QInv w -> encoded_lines_ok (tag true (qp_out (qp_Close w))) = true.
Proof.
  intros H. apply checkLastByte_inv in H. unfold qp_Close, qp_flush. cbn [qp_out].
  destruct H as (Hf & Ho & Hl & Hn). apply emit_line; auto.
Qed.

(** Every line the quoted-printable writer emits has at most 76 bytes. *)
Lemma quotedprintable_ok body : encoded_lines_ok (tag true (quotedprintable_body body)) = true.
Proof.
  apply Close_ok. unfold qp_Write. apply Write_loop_inv.
  apply QInv_intro; cbn [qp_line qp_out qp_cr]; [left; reflexivity | reflexivity | cbn; lia | reflexivity].
Qed.

Lemma noCR_firstn_skipn n p : noCR p = true -> noCR (firstn n p) = true /\ noCR (skipn n p) = true.
Proof.
  intros H. rewrite <- (firstn_skipn n p), noCR_app in H. now apply andb_true_iff in H.
Qed.

Lemma wrap_ok fuel p :
  noCR p = true -> length p <= fuel -> encoded_lines_ok (tag true (wrap_full_lines fuel p)) = true.
Proof.
  revert p. induction fuel as [|f IH]; intros p Hn Hl.
  - destruct p; [reflexivity | cbn in Hl; lia].
  - cbn [wrap_full_lines]. destruct (76 <=? length p) eqn:E.
    + apply Nat.leb_le in E. destruct (noCR_firstn_skipn 76 p Hn) as [H1 H2].
      rewrite AssemblyFacts.tag_app, tag_crlf_app, ok_crlf_app.
      rewrite ok_tag_line by (auto; rewrite length_firstn; lia).
      apply IH; auto. rewrite length_skipn. lia.
    + apply Nat.leb_gt in E. apply ok_tag_line; auto. lia.
Qed.

Lemma noCR_b64 f : noCR (b64_encode f) = true.
Proof.
  pose proof (Base64Facts.b64_encode_no_crlf (length f) f (le_n _)) as H.
  unfold noCR. rewrite forallb_forall in *. intros c Hc. specialize (H c Hc).
  unfold is_crlf_byte in H. destruct (is_char CR c); auto.
Qed.

(** Every line [writeBytes] emits has at most 76 bytes. *)
Lemma writeBytes_ok f : encoded_lines_ok (tag true (wb_loop 0 (b64_encode f))) = true.
Proof.
  pose proof (Base64Facts.wb_loop_wrap _ (b64_encode f) 0 (le_n _)) as W.
  rewrite Nat.mul_0_r in W. rewrite W. apply wrap_ok; auto. apply noCR_b64.
Qed.

End EncoderLines.

(** ** Lines of the assembled message *)
Module MessageLines.
Import LineFacts EncoderLines.

Lemma T_bind {A B} P R Q (m : M A) (k : A -> M B) :
  triple P R m -> (forall a, triple R Q (k a)) -> triple P Q (bind m k).
Proof.
  intros Hm Hk st b st' HP E. unfold bind in E.
  destruct (m st) as [a st1|e] eqn:Em; [|discriminate].
  exact (Hk a _ _ _ (Hm _ _ _ HP Em) E).
Qed.

Lemma T_ret {A} P (a : A) : triple P P (ret a).
Proof. intros st b st' HP E. injection E as _ <-. exact HP. Qed.

Lemma T_throw {A} P Q e : triple P Q (@throw A e).
Proof. intros st b st' HP E. discriminate. Qed.

Lemma T_if {A} P Q (b : bool) (m1 m2 : M A) :
  triple P Q m1 -> triple P Q m2 -> triple P Q (if b then m1 else m2).
Proof. destruct b; auto. Qed.

Lemma T_weaken {A} P (m : M A) : triple P lines_short_fresh m -> triple P lines_short m.
Proof. intros H st a st' HP E. exact (proj1 (H _ _ _ HP E)). Qed.

Lemma T_strengthen {A} Q (m : M A) : triple lines_short Q m -> triple lines_short_fresh Q m.
Proof. intros H st a st' HP E. exact (H _ _ _ (proj1 HP) E). Qed.

Lemma T_gen P rr : triple P P (generateBoundary rr).
Proof.
  intros st a st' HP E. rewrite AssemblyFacts.generateBoundary_Ok in E.
  injection E as _ <-. exact HP.
Qed.

Lemma T_check_to P l : triple P P (check_to l).
Proof.
  induction l as [|a l IH]; cbn [check_to]; [apply T_ret|].
  destruct (negb _); [apply T_throw | exact IH].
Qed.

(** A literal ending with CRLF, written at the start of a line. *)
Lemma T_lit_F s : ends_crlf s = true -> triple lines_short_fresh lines_short_fresh (write_lit s).
Proof.
  intros He st a st' [Ho Hf] E. injection E as _ <-. cbn [msg]. split.
  - unfold lines_short. rewrite fresh_ok_app by exact Hf. rewrite Ho, ok_tag_false. reflexivity.
  - apply fresh_app_ends, He.
Qed.

(** A literal starting and ending with CRLF. *)
Lemma T_lit_I s :
  ends_crlf (crlf ++ s) = true -> triple lines_short lines_short_fresh (write_lit (crlf ++ s)).
Proof.
  intros He st a st' Ho E. injection E as _ <-. cbn [msg]. split.
  - unfold lines_short in *. rewrite ?tag_crlf_app, ok_crlf_app, Ho, ok_tag_false. reflexivity.
  - exact (fresh_app_ends (msg st) false (crlf ++ s) He).
Qed.

Lemma T_writeBytes f : triple lines_short lines_short (m_writeBytes f).
Proof.
  intros st a st' Ho E. unfold m_writeBytes, write_enc in E. injection E as _ <-.
  cbn [msg]. unfold lines_short in *. unfold writeBytes.
  rewrite ?tag_crlf_app, ok_crlf_app, Ho, writeBytes_ok. reflexivity.
Qed.

Lemma T_writeFile rf name : triple lines_short lines_short (m_writeFile rf name).
Proof.
  unfold m_writeFile. destruct (rf name) as [file [e|]]; [apply T_throw | apply T_writeBytes].
Qed.

Lemma T_qp body : triple lines_short_fresh lines_short (write_qp go_qp body).
Proof.
  intros st a st' [Ho Hf] E. unfold write_qp, go_qp, bind, write_enc, ret in E.
  injection E as _ <-. cbn [msg]. unfold lines_short in *.
  rewrite fresh_ok_app by exact Hf. rewrite Ho, quotedprintable_ok. reflexivity.
Qed.

Ltac ends := unfold ends_crlf; rewrite ?rev_app_distr; reflexivity.

Lemma T_body_part mt body :
  triple lines_short_fresh lines_short (write_body_part go_qp mt body).
Proof.
  unfold write_body_part.
  eapply T_bind; [apply T_lit_F; ends | intros _].
  eapply T_bind; [apply T_lit_F; ends | intros _].
  apply T_qp.
Qed.

Lemma T_inlines rb files : triple lines_short lines_short (write_inlines rb files).
Proof.
  induction files as [|file files IH]; cbn [write_inlines]; [apply T_ret|]. cbv zeta.
  eapply T_bind; [apply T_lit_I; ends | intros _].
  do 4 (eapply T_bind; [apply T_lit_F; ends | intros _]).
  eapply T_bind; [apply T_strengthen, T_writeBytes | intros _].
  exact IH.
Qed.

Lemma T_attachments rf b files : triple lines_short lines_short (write_attachments rf b files).
Proof.
  induction files as [|file files IH]; cbn [write_attachments]; [apply T_ret|]. cbv zeta.
  eapply T_bind; [apply T_lit_I; ends | intros _].
  do 3 (eapply T_bind; [apply T_lit_F; ends | intros _]).
  eapply T_bind; [apply T_strengthen, T_if; [apply T_writeBytes | apply T_writeFile] | intros _].
  exact IH.
Qed.

Lemma T_headers f t s : triple lines_short_fresh lines_short_fresh (write_headers f t s).
Proof.
  unfold write_headers. cbv zeta.
  do 3 (eapply T_bind; [apply T_lit_F; ends | intros _]).
  apply T_lit_F; ends.
Qed.

Lemma T_ToBytes_m rr rf m : triple lines_short_fresh lines_short (ToBytes_m rr rf go_qp m).
Proof.
  unfold ToBytes_m.
  do 3 (apply T_if; [apply T_throw|]).
  eapply T_bind; [apply T_check_to | intros _].
  eapply T_bind; [apply T_headers | intros _].
  eapply T_bind; [apply T_gen | intros boundary]. cbv zeta.
  eapply T_bind with (R := lines_short_fresh).
  { apply T_if; [|apply T_ret].
    eapply T_bind; [apply T_lit_F; ends | intros _]. apply T_lit_F; ends. }
  intros _.
  eapply T_bind with (R := lines_short).
  { apply T_if; [|apply T_body_part].
    eapply T_bind; [apply T_gen | intros rb].
    do 2 (eapply T_bind; [apply T_lit_F; ends | intros _]).
    eapply T_bind; [apply T_body_part | intros _].
    eapply T_bind; [apply T_inlines | intros _].
    apply T_weaken, T_lit_I; ends. }
  intros _.
  eapply T_bind with (R := lines_short).
  { apply T_if; [apply T_attachments | apply T_ret]. }
  intros _.
  apply T_if; [apply T_weaken, T_lit_I; ends | apply T_ret].
Qed.

Lemma init_fresh : lines_short_fresh (msg init_state).
Proof. split; [reflexivity | left; reflexivity]. Qed.

End MessageLines.

(** C8.  When [ToBytes] assembles a message (with the standard library's
    quoted-printable writer), every line of the output that holds a byte
    written by the quoted-printable or the base64 encoder has at most 76
    bytes, the CRLF that ends it not counted.  The buffer's bytes are
    tagged by their writer; the header lines, including the Q-encoded
    subject, are written by [ToBytes] itself. *)
Theorem C8_encoded_lines_at_most_76 rr rf (m : Mail) u st :
  ToBytes_m rr rf go_qp m init_state = Ok u st ->
  ToBytes rr rf go_qp m = (Some (bytes_of (msg st)), None)
  /\ forall ln, In ln (lines_of (msg st)) -> existsb snd ln = true -> length ln <= 76.
Proof.
  intros E. split; [unfold ToBytes; rewrite E; reflexivity|].
  pose proof (MessageLines.T_ToBytes_m rr rf m init_state u st MessageLines.init_fresh E) as Hok.
  unfold lines_short, encoded_lines_ok in Hok. rewrite forallb_forall in Hok.
  intros ln Hin Hs. specialize (Hok ln Hin). unfold line_ok in Hok.
  rewrite Hs in Hok. cbn [negb orb] in Hok. now apply Nat.leb_le.
Qed.

(** A message with a long body, an inline file and an attachment read
    from the file system. *)
Lemma C8_witness :
  ToBytes_m rand_counter (readFile_const long_bytes) go_qp mail_parts init_state
    = Ok tt mail_parts_state
  /\ ToBytes rand_counter (readFile_const long_bytes) go_qp mail_parts
     = (Some (bytes_of (msg mail_parts_state)), None)
  /\ forall ln, In ln (lines_of (msg mail_parts_state)) -> existsb snd ln = true -> length ln <= 76.
Proof.
  assert (E : ToBytes_m rand_counter (readFile_const long_bytes) go_qp mail_parts init_state
              = Ok tt mail_parts_state) by (vm_compute; reflexivity).
  split; [exact E|]. exact (C8_encoded_lines_at_most_76 _ _ _ _ _ E).
Defined.

(** * Further properties of the code *)

Module BoundaryFacts.

Lemma lowerhex_digit n : is_lowerhex (nth n lowerhex "0"%char) = true.
Proof. do 16 (destruct n as [|n]; [reflexivity|]). destruct n; reflexivity. Qed.

Lemma hex_value_nth n : n < 16 -> hex_value (nth n lowerhex "0"%char) = n.
Proof. intros H. do 16 (destruct n as [|n]; [reflexivity|]). lia. Qed.

Lemma code_lt_256 b : code b < 256.
Proof. unfold code. pose proof (nat_ascii_bounded b). lia. Qed.

Lemma hex_byte_inj b c : hex_byte b = hex_byte c -> b = c.
Proof.
  unfold hex_byte. intros H.
  pose proof (code_lt_256 b) as Lb. pose proof (code_lt_256 c) as Lc.
  assert (H1 := f_equal (fun l => hex_value (hd "0"%char l)) H).
  assert (H2 := f_equal (fun l => hex_value (hd "0"%char (tl l))) H).
  cbv beta in H1, H2. cbn [hd tl] in H1, H2.
  rewrite !hex_value_nth in H1 by (apply Nat.Div0.div_lt_upper_bound; lia).
  rewrite !hex_value_nth in H2 by (apply Nat.mod_upper_bound; lia).
  rewrite <- (ascii_nat_embedding b), <- (ascii_nat_embedding c). f_equal.
  fold (code b) (code c).
  rewrite (Nat.div_mod_eq (code b) 16), (Nat.div_mod_eq (code c) 16). lia.
Qed.

Lemma flat_map_hex_inj b1 b2 : flat_map hex_byte b1 = flat_map hex_byte b2 -> b1 = b2.
Proof.
  revert b2. induction b1 as [|x b1 IH]; intros [|y b2] H; cbn [flat_map] in H; auto.
  - discriminate.
  - discriminate.
  - assert (Ex : exists p q, hex_byte x = [p; q]) by (do 2 eexists; reflexivity).
    assert (Ey : exists p q, hex_byte y = [p; q]) by (do 2 eexists; reflexivity).
    destruct Ex as (p & q & Ex), Ey as (p' & q' & Ey).
    rewrite Ex, Ey in H. cbn [app] in H. injection H as <- <- H.
    f_equal.
    + apply hex_byte_inj. congruence.
    + now apply IH.
Qed.

Lemma length_fill16 d : length (fill16 d) = 16.
Proof. unfold fill16. rewrite length_firstn, length_app, repeat_length. lia. Qed.

Lemma flat_map_hex_shape b :
  length (flat_map hex_byte b) = 2 * length b /\ forallb is_lowerhex (flat_map hex_byte b) = true.
Proof.
  induction b as [|x b [IH1 IH2]]; cbn [flat_map length]; auto.
  rewrite length_app, forallb_app, IH1, IH2.
  change (forallb is_lowerhex (hex_byte x))
    with (is_lowerhex (nth (code x / 16) lowerhex "0"%char)
          && (is_lowerhex (nth (code x mod 16) lowerhex "0"%char) && true)).
  rewrite !lowerhex_digit. split; reflexivity || (cbn [length hex_byte]; lia).
Qed.

End BoundaryFacts.

(** [generateBoundary] consumes one read of the random source, leaves the
    buffer alone and returns [boundary-] followed by 32 lower-case hex
    digits, whatever the source delivers. *)
Theorem generateBoundary_format rr st :
  exists hex, generateBoundary rr st
              = Ok (lit "boundary-" ++ hex) (mkState (msg st) (S (draws st)))
    /\ length hex = 32 /\ forallb is_lowerhex hex = true.
Proof.
  rewrite AssemblyFacts.generateBoundary_Ok. eexists. split; [reflexivity|].
  destruct (BoundaryFacts.flat_map_hex_shape (fill16 (fst (rr (draws st))))) as [H1 H2].
  rewrite H1, BoundaryFacts.length_fill16. auto.
Qed.

(** Distinct random buffers give distinct boundaries: [fmt.Sprintf("%x")]
    loses no information. *)
Theorem render_boundary_injective (buf1 buf2 : bytes) :
  render_boundary buf1 = render_boundary buf2 <-> buf1 = buf2.
Proof.
  split; [|intros ->; reflexivity].
  unfold render_boundary. intros H. apply app_inv_head in H.
  now apply BoundaryFacts.flat_map_hex_inj.
Qed.

Module PartFacts.

Lemma b64_encode_length n f :
  length f <= n -> length (b64_encode f) = 4 * ((length f + 2) / 3).
Proof.
  revert f. induction n as [|n IH]; intros f Hl.
  - destruct f; [reflexivity | simpl in Hl; lia].
  - destruct f as [|b0 [|b1 [|b2 rest]]]; try reflexivity.
    cbn [b64_encode length]. rewrite IH by (simpl in Hl; lia).
    replace (S (S (S (length rest))) + 2) with ((length rest + 2) + 1 * 3) by lia.
    rewrite Nat.div_add by lia. lia.
Qed.

Lemma wrap_length fuel p :
  length p <= fuel -> length (wrap_full_lines fuel p) = length p + 2 * (length p / 76).
Proof.
  revert p. induction fuel as [|fuel IH]; intros p Hl.
  - destruct p; [reflexivity | simpl in Hl; lia].
  - cbn [wrap_full_lines]. destruct (76 <=? length p) eqn:E.
    + apply Nat.leb_le in E.
      rewrite !length_app, IH, length_skipn, length_firstn by (rewrite length_skipn; lia).
      assert (D : length p / 76 = (length p - 76) / 76 + 1).
      { replace (length p) with ((length p - 76) + 1 * 76) at 1 by lia.
        now rewrite Nat.div_add by lia. }
      rewrite D. cbn [length crlf]. lia.
    + apply Nat.leb_gt in E. rewrite Nat.div_small by lia. lia.
Qed.

Lemma wb_loop_chars idx p c : In c (wb_loop idx p) -> In c p \/ c = CR \/ c = LF.
Proof.
  revert idx. induction p as [|x p IH]; intros idx H; cbn [wb_loop] in H; [contradiction|].
  destruct H as [<-|H]; [left; now left|].
  apply in_app_or in H as [H|H].
  - destruct ((idx + 1) mod 76 =? 0); [|contradiction].
    destruct H as [<-|[<-|[]]]; auto.
  - destruct (IH _ H) as [H'|H']; [left; now right | auto].
Qed.

Lemma enc_char_in z : In (enc_char z) b64_alphabet.
Proof.
  unfold enc_char. destruct (nth_in_or_default (Z.to_nat z) b64_alphabet "A"%char) as [H|H].
  - exact H.
  - rewrite H. now left.
Qed.

Lemma b64_encode_chars n f c :
  length f <= n -> In c (b64_encode f) -> In c b64_alphabet \/ c = pad_char.
Proof.
  revert f. induction n as [|n IH]; intros f Hl H.
  - destruct f; [contradiction | simpl in Hl; lia].
  - destruct f as [|b0 [|b1 [|b2 rest]]]; cbn [b64_encode] in H.
    + contradiction.
    + destruct H as [<-|[<-|[<-|[<-|[]]]]]; auto using enc_char_in.
    + destruct H as [<-|[<-|[<-|[<-|[]]]]]; auto using enc_char_in.
    + destruct H as [<-|[<-|[<-|[<-|H]]]]; auto using enc_char_in.
      apply (IH rest); auto. simpl in Hl; lia.
Qed.

Lemma existsb_in c : In c b64_alphabet -> existsb (fun a => Ascii.eqb a c) b64_alphabet = true.
Proof. intros H. apply existsb_exists. exists c. split; auto. apply Ascii.eqb_refl. Qed.

End PartFacts.

(** The length of a part written by [writeBytes]: the leading CR LF, the
    padded base64 text of [4 * ceil(n/3)] characters, and a CR LF after
    each full 76-character line. *)
Theorem writeBytes_length (file : bytes) :
  let L := 4 * ((length file + 2) / 3) in
  length (writeBytes file) = 2 + L + 2 * (L / 76).
Proof.
  cbv zeta. unfold writeBytes. rewrite length_app.
  change (wb_loop 0 (b64_encode file)) with (wb_loop (76 * 0) (b64_encode file)).
  rewrite (Base64Facts.wb_loop_wrap (length (b64_encode file))) by lia.
  rewrite PartFacts.wrap_length by lia.
  rewrite (PartFacts.b64_encode_length (length file)) by lia. reflexivity.
Qed.

(** [writeBytes] writes only base64 alphabet characters, [=], CR and LF. *)
Theorem writeBytes_charset (file : bytes) : forallb b64_out_char (writeBytes file) = true.
Proof.
  apply forallb_forall. intros c H. unfold writeBytes in H.
  apply in_app_or in H as [H|H].
  - destruct H as [<-|[<-|[]]]; reflexivity.
  - unfold b64_out_char.
    destruct (PartFacts.wb_loop_chars _ _ _ H) as [H'|[->| ->]]; [|now rewrite !orb_true_r..].
    destruct (PartFacts.b64_encode_chars (length file) file c (le_n _) H') as [H''| ->].
    + now rewrite PartFacts.existsb_in.
    + now rewrite orb_true_r.
Qed.

Module QPShape.


Lemma crlf_lines_snoc ls ln : crlf_lines (ls ++ [ln]) = crlf_lines ls ++ ln ++ crlf.
Proof. unfold crlf_lines. rewrite flat_map_app. cbn [flat_map]. now rewrite app_nil_r. Qed.

Lemma hex_text n : qp_text_char (nth n upperhex "0"%char) = true.
Proof. do 16 (destruct n as [|n]; [reflexivity|]). destruct n; reflexivity. Qed.

Lemma hex_not_ws n : isWhitespace (nth n upperhex "0"%char) = false.
Proof. do 16 (destruct n as [|n]; [reflexivity|]). destruct n; reflexivity. Qed.

Lemma ends_ws_snoc l c : ends_ws (l ++ [c]) = isWhitespace c.
Proof. unfold ends_ws. rewrite rev_app_distr. reflexivity. Qed.

Lemma W_intro ls out line cr :
  out = crlf_lines ls -> forallb qp_line_ok ls = true ->
  forallb qp_text_char line = true -> length line <= 75 -> qp_shape_inv (mkQP line cr out).
Proof. intros. exists ls. cbn [qp_out qp_line]. auto. Qed.

Lemma insertCRLF_W line cr out :
  qp_shape_inv (mkQP [] cr out) -> qp_line_ok line = true -> qp_shape_inv (qp_insertCRLF (mkQP line cr out)).
Proof.
  intros (ls & Ho & Hls & _) Hl. cbn [qp_out] in Ho.
  unfold qp_insertCRLF, qp_flush. cbn [qp_line qp_cr qp_out].
  apply (W_intro (ls ++ [line])).
  - rewrite crlf_lines_snoc, Ho. now rewrite app_assoc.
  - rewrite forallb_app, Hls. cbn [forallb]. now rewrite Hl.
  - reflexivity.
  - cbn. lia.
Qed.

Lemma W_clear line cr out : qp_shape_inv (mkQP line cr out) -> qp_shape_inv (mkQP [] cr out).
Proof. intros (ls & Ho & Hls & _). exists ls. cbn [qp_out qp_line] in *. auto with arith. Qed.

Lemma W_cr line cr cr' out : qp_shape_inv (mkQP line cr out) -> qp_shape_inv (mkQP line cr' out).
Proof. intros (ls & Ho & Hls & H). exists ls. cbn [qp_out qp_line] in *. auto. Qed.

Lemma softbreak_W w : qp_shape_inv w -> qp_shape_inv (qp_insertSoftLineBreak w).
Proof.
  destruct w as [line cr out]. intros H. unfold qp_insertSoftLineBreak. cbn [qp_line qp_cr qp_out].
  apply insertCRLF_W; [now apply W_clear in H|].
  destruct H as (ls & _ & _ & Ht & Hl). cbn [qp_line] in Ht, Hl.
  unfold qp_line_ok. rewrite forallb_app, Ht, ends_ws_snoc, length_app. cbn [length].
  replace (length line + 1 <=? 76) with true by (symmetry; apply Nat.leb_le; lia). reflexivity.
Qed.

Lemma ends_ws_hex l b : ends_ws (l ++ ["="%char; hex_hi b; hex_lo b]) = false.
Proof.
  replace (l ++ ["="%char; hex_hi b; hex_lo b]) with ((l ++ ["="%char; hex_hi b]) ++ [hex_lo b])
    by (now rewrite <- app_assoc).
  rewrite ends_ws_snoc. apply hex_not_ws.
Qed.

Lemma hex_text_all l b :
  forallb qp_text_char l = true -> forallb qp_text_char (l ++ ["="%char; hex_hi b; hex_lo b]) = true.
Proof.
  intros H. rewrite forallb_app, H. cbn [forallb]. unfold hex_hi, hex_lo. now rewrite !hex_text.
Qed.

Lemma encode_W b w : qp_shape_inv w -> qp_shape_inv (qp_encode b w) /\ ends_ws (qp_line (qp_encode b w)) = false.
Proof.
  intros H. unfold qp_encode.
  destruct (Z.of_nat lineMaxLen - 1 - Z.of_nat (length (qp_line w)) <? 3)%Z eqn:E.
  - pose proof (softbreak_W w H) as H'. destruct (qp_insertSoftLineBreak w) as [l c o] eqn:Es.
    assert (l = []) by (rewrite <- (EncoderLines.softbreak_line w), Es; reflexivity). subst l.
    cbn [qp_line qp_cr qp_out]. split; [|apply (ends_ws_hex [])].
    destruct H' as (ls & Ho & Hls & _). apply (W_intro ls); auto.
    + apply (hex_text_all []). reflexivity.
    + cbn. lia.
  - destruct H as (ls & Ho & Hls & Ht & Hl). apply Z.ltb_ge in E. unfold lineMaxLen in E.
    cbn [qp_line qp_cr qp_out]. split; [|apply ends_ws_hex].
    apply (W_intro ls); auto.
    + now apply hex_text_all.
    + rewrite length_app. cbn [length]. lia.
Qed.

Lemma ends_ws_last l :
  l <> [] -> ends_ws l = isWhitespace (last l "000"%char).
Proof.
  intros Hl. rewrite (app_removelast_last "000"%char Hl) at 1. apply ends_ws_snoc.
Qed.

Lemma checkLastByte_W w :
  qp_shape_inv w -> qp_shape_inv (qp_checkLastByte w) /\ ends_ws (qp_line (qp_checkLastByte w)) = false.
Proof.
  destruct w as [line cr out]. intros H. unfold qp_checkLastByte. cbn [qp_line qp_cr qp_out].
  destruct line as [|c l] eqn:El; [split; [exact H | reflexivity]|].
  rewrite <- El. rewrite <- El in H.
  destruct (isWhitespace (last line "000"%char)) eqn:Ews.
  - apply encode_W. destruct H as (ls & Ho & Hls & Ht & Hl). cbn [qp_line qp_out] in *.
    assert (Hsplit : line = removelast line ++ [last line "000"%char])
      by (apply app_removelast_last; rewrite El; discriminate).
    apply (W_intro ls); auto.
    + rewrite Hsplit, forallb_app in Ht. now apply andb_true_iff in Ht as [Ht _].
    + rewrite Hsplit, length_app in Hl. cbn [length] in Hl. lia.
  - split; [exact H|]. cbn [qp_line]. rewrite ends_ws_last by (rewrite El; discriminate).
    exact Ews.
Qed.

Lemma batched_text b :
  qp_batched b = true -> is_char LF b || is_char CR b = false -> qp_text_char b = true.
Proof.
  unfold qp_batched, qp_text_char, isWhitespace. intros H1 H2.
  apply orb_false_iff in H2 as [H2 H3]. rewrite H2, H3, !orb_false_r in H1.
  apply orb_true_iff in H1 as [H1|H1].
  - apply andb_true_iff in H1 as [H1 _]. unfold in_range in *.
    apply andb_true_iff in H1 as [H4 H5]. apply Nat.leb_le in H4.
    rewrite H5. replace (32 <=? code b) with true by (symmetry; apply Nat.leb_le; lia). reflexivity.
  - apply orb_true_iff in H1 as [H1|H1]; [|now rewrite H1, orb_true_r].
    unfold is_char in H1. apply Ascii.eqb_eq in H1. subst b. reflexivity.
Qed.

Lemma write_byte_W w b : qp_batched b = true -> qp_shape_inv w -> qp_shape_inv (qp_write_byte w b).
Proof.
  intros Hb H. unfold qp_write_byte.
  destruct (is_char LF b || is_char CR b) eqn:Eb.
  - destruct (qp_cr w && is_char LF b).
    + destruct w as [l0 c0 o0]. now apply (W_cr _ c0).
    + assert (Hw : qp_shape_inv (if is_char CR b then mkQP (qp_line w) true (qp_out w) else w))
        by (destruct (is_char CR b); [destruct w as [l0 c0 o0]; now apply (W_cr _ c0) | exact H]).
      apply checkLastByte_W in Hw as [Hw Hws].
      destruct (qp_checkLastByte _) as [line cr out] eqn:Ec.
      cbn [qp_line] in Hws. apply insertCRLF_W; [now apply W_clear in Hw|].
      destruct Hw as (ls & _ & _ & Ht & Hl). cbn [qp_line] in Ht, Hl.
      unfold qp_line_ok. rewrite Ht, Hws. cbn [negb andb]. apply Nat.leb_le. lia.
  - assert (H1 : qp_shape_inv (if length (qp_line w) =? lineMaxLen - 1 then qp_insertSoftLineBreak w else w)
                 /\ length (qp_line (if length (qp_line w) =? lineMaxLen - 1
                                     then qp_insertSoftLineBreak w else w)) <= 74).
    { destruct (Nat.eqb_spec (length (qp_line w)) (lineMaxLen - 1)) as [E|E].
      - split; [now apply softbreak_W | rewrite EncoderLines.softbreak_line; cbn; lia].
      - split; [exact H|]. destruct H as (_ & _ & _ & _ & Hl). unfold lineMaxLen in E. lia. }
    destruct H1 as [(ls & Ho & Hls & Ht & Hl) Hl74].
    apply (W_intro ls); auto.
    + rewrite forallb_app, Ht. cbn [forallb]. now rewrite (batched_text b Hb Eb).
    + rewrite length_app. cbn [length]. lia.
Qed.

Lemma write_W w p : forallb qp_batched p = true -> qp_shape_inv w -> qp_shape_inv (qp_write w p).
Proof.
  unfold qp_write. revert w. induction p as [|b p IH]; intros w Hp H; cbn [fold_left]; auto.
  cbn [forallb] in Hp. apply andb_true_iff in Hp as [Hb Hp].
  apply IH; auto. now apply write_byte_W.
Qed.

Lemma Write_loop_W p : forall w pending,
  forallb qp_batched pending = true -> qp_shape_inv w -> qp_shape_inv (qp_Write_loop w pending p).
Proof.
  induction p as [|b p IH]; intros w pending Hp H; cbn [qp_Write_loop].
  - now apply write_W.
  - destruct (qp_batched b) eqn:Eb; apply IH.
    + rewrite forallb_app, Hp. cbn [forallb]. now rewrite Eb.
    + exact H.
    + reflexivity.
    + apply encode_W, write_W; auto.
Qed.

(** The writer on text that needs no encoding. *)
Lemma plain_batched c : plain_char c = true -> qp_batched c = true.
Proof.
  unfold plain_char, qp_batched, isWhitespace. intros H.
  apply orb_true_iff in H as [H|H]; [|now rewrite H, !orb_true_r].
  apply andb_true_iff in H as [H1 H2].
  destruct (is_char " "%char c) eqn:Es; [now rewrite !orb_true_r|].
  unfold in_range in *. apply andb_true_iff in H1 as [H3 H4]. apply Nat.leb_le in H3.
  rewrite H2, H4. cbn [negb andb].
  assert (code c <> 32).
  { intros E. unfold is_char in Es. apply Ascii.eqb_neq in Es. apply Es.
    rewrite <- (ascii_nat_embedding c). fold (code c). now rewrite E. }
  replace (33 <=? code c) with true by (symmetry; apply Nat.leb_le; lia). reflexivity.
Qed.

Lemma plain_not_crlf c : plain_char c = true -> is_char LF c || is_char CR c = false.
Proof.
  unfold plain_char. intros H.
  destruct (is_char LF c) eqn:E1; [unfold is_char in E1; apply Ascii.eqb_eq in E1; subst; discriminate|].
  destruct (is_char CR c) eqn:E2; [unfold is_char in E2; apply Ascii.eqb_eq in E2; subst; discriminate|].
  reflexivity.
Qed.

Lemma Write_loop_batched p : forall w pending,
  forallb qp_batched p = true -> qp_Write_loop w pending p = qp_write w (pending ++ p).
Proof.
  induction p as [|b p IH]; intros w pending Hp; cbn [qp_Write_loop].
  - now rewrite app_nil_r.
  - cbn [forallb] in Hp. apply andb_true_iff in Hp as [Hb Hp]. rewrite Hb, IH by exact Hp.
    now rewrite <- app_assoc.
Qed.

Lemma write_plain l : forall line out,
  forallb plain_char l = true -> length line + length l <= 75 ->
  qp_write (mkQP line false out) l = mkQP (line ++ l) false out.
Proof.
  induction l as [|c l IH]; intros line out Hl Hlen.
  - now rewrite app_nil_r.
  - cbn [forallb] in Hl. apply andb_true_iff in Hl as [Hc Hl].
    unfold qp_write. cbn [fold_left]. unfold qp_write_byte at 2.
    rewrite plain_not_crlf by exact Hc. cbn [qp_line qp_out].
    cbn [length] in Hlen.
    replace (length line =? lineMaxLen - 1) with false
      by (symmetry; apply Nat.eqb_neq; unfold lineMaxLen; lia).
    cbn [qp_line qp_out]. fold (qp_write (mkQP (line ++ [c]) false out) l).
    rewrite IH; auto.
    + now rewrite <- app_assoc.
    + rewrite length_app. cbn [length]. lia.
Qed.

Lemma checkLastByte_plain line cr out :
  ends_ws line = false -> qp_checkLastByte (mkQP line cr out) = mkQP line cr out.
Proof.
  intros H. unfold qp_checkLastByte. cbn [qp_line].
  destruct line as [|c l] eqn:El; [reflexivity|]. rewrite <- El in *.
  rewrite ends_ws_last in H by (rewrite El; discriminate). now rewrite H.
Qed.

Lemma write_crlf l out :
  ends_ws l = false -> qp_write (mkQP l false out) crlf = mkQP [] false (out ++ l ++ crlf).
Proof.
  intros Hws. unfold qp_write, crlf. cbn [fold_left].
  unfold qp_write_byte at 2. cbn [qp_cr qp_line qp_out].
  change (is_char LF CR || is_char CR CR) with true. change (is_char CR CR) with true.
  cbn [andb negb]. rewrite checkLastByte_plain by exact Hws.
  unfold qp_insertCRLF, qp_flush, qp_write_byte. cbn [qp_line qp_cr qp_out].
  change (is_char LF LF || is_char CR LF) with true. change (is_char LF LF) with true.
  cbn [andb]. reflexivity.
Qed.

Lemma write_plain_lines ls : forall out,
  forallb plain_line ls = true ->
  qp_write (mkQP [] false out) (crlf_lines ls) = mkQP [] false (out ++ crlf_lines ls).
Proof.
  induction ls as [|l ls IH]; intros out H.
  - now rewrite app_nil_r.
  - cbn [forallb] in H. apply andb_true_iff in H as [Hl H].
    unfold plain_line in Hl. apply andb_true_iff in Hl as [Hl Hlen].
    apply andb_true_iff in Hl as [Hl Hws]. apply negb_true_iff in Hws. apply Nat.leb_le in Hlen.
    unfold crlf_lines. cbn [flat_map]. fold (crlf_lines ls).
    unfold qp_write. rewrite <- !app_assoc, !fold_left_app.
    fold (qp_write (mkQP [] false out) l). rewrite write_plain by (auto; cbn; lia).
    fold (qp_write (mkQP ([] ++ l) false out) crlf). cbn [app]. rewrite write_crlf by exact Hws.
    fold (qp_write (mkQP [] false (out ++ l ++ crlf)) (crlf_lines ls)).
    rewrite IH by exact H. rewrite <- !app_assoc. reflexivity.
Qed.

End QPShape.

(** The quoted-printable output is a run of CRLF-terminated lines and a
    final unterminated line, each made of printable ASCII, spaces and tabs,
    at most 76 bytes long, and not ending in a space or a tab. *)
Theorem quotedprintable_line_shape (body : bytes) :
  exists ls last, quotedprintable_body body = crlf_lines ls ++ last
    /\ forallb qp_line_ok (ls ++ [last]) = true.
Proof.
  assert (H : qp_shape_inv (qp_Write (mkQP [] false []) body)).
  { apply QPShape.Write_loop_W; [reflexivity|]. apply (QPShape.W_intro []); auto. cbn; lia. }
  apply QPShape.checkLastByte_W in H as [H Hws].
  unfold quotedprintable_body, qp_Close.
  destruct (qp_checkLastByte _) as [line cr out].
  destruct H as (ls & Ho & Hls & Ht & Hl). cbn [qp_line qp_out] in *.
  unfold qp_flush. cbn [qp_out qp_line]. exists ls, line. split; [now rewrite Ho|].
  rewrite forallb_app, Hls. cbn [forallb]. unfold qp_line_ok. rewrite Ht, Hws.
  cbn [negb andb]. replace (length line <=? 76) with true by (symmetry; apply Nat.leb_le; lia).
  reflexivity.
Qed.

(** Text of printable ASCII (without [=]), spaces and tabs, in CRLF lines of
    at most 75 bytes that do not end in a space or a tab, passes through the
    quoted-printable writer unchanged. *)
Theorem quotedprintable_plain_identity (ls : list bytes) (last : bytes) :
  forallb plain_line (ls ++ [last]) = true ->
  quotedprintable_body (crlf_lines ls ++ last) = crlf_lines ls ++ last.
Proof.
  intros H. rewrite forallb_app in H. apply andb_true_iff in H as [Hls Hlast].
  cbn [forallb] in Hlast. rewrite andb_true_r in Hlast.
  unfold plain_line in Hlast. apply andb_true_iff in Hlast as [Hl Hlen].
  apply andb_true_iff in Hl as [Hl Hws]. apply negb_true_iff in Hws. apply Nat.leb_le in Hlen.
  unfold quotedprintable_body, qp_Write.
  rewrite QPShape.Write_loop_batched.
  2:{ rewrite forallb_app. apply andb_true_iff. split.
      - apply forallb_forall. intros c Hc. unfold crlf_lines in Hc.
        apply in_flat_map in Hc as [l [Hin Hc]].
        apply in_app_or in Hc as [Hc|Hc].
        + apply QPShape.plain_batched.
          rewrite forallb_forall in Hls. specialize (Hls l Hin).
          unfold plain_line in Hls. apply andb_true_iff in Hls as [Hls _].
          apply andb_true_iff in Hls as [Hls _]. rewrite forallb_forall in Hls. auto.
        + destruct Hc as [<-|[<-|[]]]; reflexivity.
      - apply forallb_forall. intros c Hc. apply QPShape.plain_batched.
        rewrite forallb_forall in Hl. auto. }
  cbn [app]. unfold qp_write. rewrite fold_left_app.
  fold (qp_write (mkQP [] false []) (crlf_lines ls)).
  rewrite QPShape.write_plain_lines by exact Hls.
  fold (qp_write (mkQP [] false ([] ++ crlf_lines ls)) last).
  rewrite QPShape.write_plain by (auto; cbn; lia).
  unfold qp_Close. rewrite QPShape.checkLastByte_plain by exact Hws.
  reflexivity.
Qed.

Module HeaderFacts.
Import LineFacts EncoderLines.

Lemma in_re_excludes x r s : in_re r s -> re_excludes x r -> ~ In x s.
Proof.
  induction 1; cbn [re_excludes]; intros Hx Hin.
  - exact Hin.
  - destruct Hin as [<-|[]]. congruence.
  - apply in_app_or in Hin as [Hin|Hin]; [apply IHin_re1 | apply IHin_re2]; tauto.
  - apply IHin_re; tauto.
  - apply IHin_re; tauto.
  - exact Hin.
  - apply in_app_or in Hin as [Hin|Hin]; [apply IHin_re1 | apply IHin_re2]; auto.
Qed.

Lemma valid_excludes x s :
  local_char x = false -> domain_char x = false -> is_letter x = false ->
  is_char "@"%char x = false -> is_char "."%char x = false ->
  ValidateEmail s = true -> ~ In x s.
Proof.
  intros H1 H2 H3 H4 H5 Hv. apply ValidateEmail_in_re in Hv.
  apply (in_re_excludes x _ _ Hv). cbn. tauto.
Qed.

Lemma valid_noCR s : ValidateEmail s = true -> noCR s = true.
Proof.
  intros Hv. unfold noCR. apply forallb_forall. intros c Hc.
  destruct (is_char CR c) eqn:E; [|reflexivity].
  unfold is_char in E. apply Ascii.eqb_eq in E. subst c.
  exfalso. revert Hc. apply valid_excludes; auto.
Qed.

Lemma valid_no_comma s : ValidateEmail s = true -> ~ In ","%char s.
Proof. apply valid_excludes; reflexivity. Qed.

Lemma valid_nonempty s : ValidateEmail s = true -> s <> [].
Proof. intros Hv ->. discriminate. Qed.

Lemma join_noCR l : forallb noCR l = true -> noCR (join (lit ", ") l) = true.
Proof.
  induction l as [|a l IH]; intros H; [reflexivity|].
  cbn [forallb] in H. apply andb_true_iff in H as [Ha H].
  destruct l as [|b l]; [exact Ha|].
  change (join (lit ", ") (a :: b :: l)) with (a ++ lit ", " ++ join (lit ", ") (b :: l)).
  rewrite !noCR_app, Ha, IH by exact H. reflexivity.
Qed.

Lemma writeQString_noCR s : noCR (writeQString s) = true.
Proof.
  unfold writeQString. induction s as [|b s IH]; [reflexivity|].
  cbn [flat_map]. rewrite noCR_app, IH, andb_true_r.
  destruct (is_char " "%char b); [reflexivity|].
  destruct (_ && _ && _ && _) eqn:E.
  - cbn [noCR forallb]. rewrite andb_true_r. apply negb_true_iff.
    apply andb_true_iff in E as [E _]. apply andb_true_iff in E as [E _].
    apply andb_true_iff in E as [E _]. apply andb_true_iff in E as [E _].
    destruct (is_char CR b) eqn:Eb; [|reflexivity].
    unfold is_char in Eb. apply Ascii.eqb_eq in Eb. subst b. discriminate.
  - cbn [noCR forallb]. unfold hex_hi, hex_lo. now rewrite !hex_noCR.
Qed.

Lemma qEncode_loop_noCR cs fuel : forall s cur,
  noCR cs = true -> noCR (qEncode_loop cs fuel s cur) = true.
Proof.
  induction fuel as [|f IH]; intros s cur Hcs; [reflexivity|].
  destruct s as [|b s']; [reflexivity|]. cbn [qEncode_loop].
  destruct (maxContentLen <? _); rewrite !noCR_app, writeQString_noCR, IH by exact Hcs;
    rewrite ?andb_true_r; [|reflexivity].
  unfold splitWord, closeWord, openWord. rewrite !noCR_app, Hcs. reflexivity.
Qed.

Lemma QEncode_noCR s : noCR (QEncode (lit "utf-8") s) = true.
Proof.
  unfold QEncode. destruct (needsEncoding s) eqn:E.
  - unfold encodeWord, openWord, closeWord. rewrite !noCR_app.
    replace (isUTF8 (lit "utf-8")) with true by reflexivity.
    rewrite qEncode_loop_noCR by reflexivity. reflexivity.
  - unfold noCR. apply forallb_forall. intros c Hc.
    destruct (is_char CR c) eqn:Ec; [|reflexivity].
    unfold is_char in Ec. apply Ascii.eqb_eq in Ec. subst c.
    assert (needsEncoding s = true) by (apply existsb_exists; exists CR; auto).
    congruence.
Qed.

Lemma lines_of_line_crlf ln x :
  noCR ln = true -> lines_of (tag false (ln ++ crlf ++ x)) = [tag false ln] ++ lines_of (tag false x).
Proof.
  intros H. rewrite AssemblyFacts.tag_app, tag_crlf_app, lines_of_crlf_app.
  rewrite lines_of_noCR by now rewrite noCR_tag. reflexivity.
Qed.

Lemma check_to_Ok l st u st' : check_to l st = Ok u st' -> forallb ValidateEmail l = true.
Proof.
  induction l as [|a l IH]; cbn [check_to forallb]; [reflexivity|].
  destruct (ValidateEmail a); cbn [negb]; [exact IH | discriminate].
Qed.

Lemma ToBytes_m_Ok_pre rr rf qp m st u st' :
  ToBytes_m rr rf qp m st = Ok u st' ->
  To m <> [] /\ Body m <> [] /\ ValidateEmail (From m) = true /\ forallb ValidateEmail (To m) = true.
Proof.
  unfold ToBytes_m. destruct (To m) as [|t ts]; [discriminate|].
  destruct (Body m) as [|b bs]; [discriminate|].
  destruct (ValidateEmail (From m)); [|discriminate]. cbn [is_nil negb].
  unfold bind at 1. destruct (check_to (t :: ts) st) as [v st1|e] eqn:E; [|discriminate].
  intros _. apply check_to_Ok in E. repeat split; try discriminate. exact E.
Qed.

Lemma comma_split a b x y :
  ~ In ","%char a -> ~ In ","%char b -> a ++ ","%char :: x = b ++ ","%char :: y -> a = b /\ x = y.
Proof.
  revert b. induction a as [|c a IH]; intros [|d b] Ha Hb H; cbn [app] in H.
  - injection H as H. auto.
  - injection H as <- _. exfalso. apply Hb. now left.
  - injection H as -> _. exfalso. apply Ha. now left.
  - injection H as <- H. destruct (IH b) as [<- <-]; auto.
    + intros Hc. apply Ha. now right.
    + intros Hc. apply Hb. now right.
Qed.

End HeaderFacts.

(** A message [ToBytes] assembles starts with exactly four lines: [From:]
    with the sender, [To:] with the recipients, [Subject:] with the
    encoded subject and [MIME-Version: 1.0]; the fifth line starts with
    [Content-Type: ].  Neither an address nor the subject can add or split
    a header line. *)
Theorem ToBytes_header_lines rr rf qp (m : Mail) (out : bytes) :
  ToBytes rr rf qp m = (Some out, None) ->
  exists rest,
    split_crlf out
    = [lit "From: " ++ From m; lit "To: " ++ join (lit ", ") (To m);
       lit "Subject: " ++ QEncode (lit "utf-8") (Subject m); lit "MIME-Version: 1.0"]
      ++ split_crlf (lit "Content-Type: " ++ rest).
Proof.
  intros H. unfold ToBytes in H.
  destruct (ToBytes_m rr rf qp m init_state) as [u st|e] eqn:E; [|discriminate].
  injection H as <-.
  destruct (HeaderFacts.ToBytes_m_Ok_pre _ _ _ _ _ _ _ E) as (HTo & HBody & HFrom & HAll).
  destruct (AssemblyFacts.ToBytes_m_after_headers rr rf qp m init_state u st HTo HBody HFrom HAll E)
    as (rest & sfx & Hst).
  exists (rest ++ bytes_of sfx). rewrite Hst. cbn [msg init_state app].
  rewrite !MonadFacts.bytes_of_app, !MonadFacts.bytes_of_tag, <- (app_assoc (lit "Content-Type: ")).
  generalize (lit "Content-Type: " ++ rest ++ bytes_of sfx). intros x.
  assert (Hnf : noCR (From m) = true) by now apply HeaderFacts.valid_noCR.
  assert (Hnt : noCR (join (lit ", ") (To m)) = true).
  { apply HeaderFacts.join_noCR. apply forallb_forall. intros a Ha.
    rewrite forallb_forall in HAll. now apply HeaderFacts.valid_noCR, HAll. }
  pose proof (HeaderFacts.QEncode_noCR (Subject m)) as Hns.
  unfold header_block, split_crlf. rewrite <- !app_assoc.
  rewrite (app_assoc (lit "From: ")).
  rewrite HeaderFacts.lines_of_line_crlf by (rewrite EncoderLines.noCR_app, Hnf; reflexivity).
  rewrite (app_assoc (lit "To: ")).
  rewrite HeaderFacts.lines_of_line_crlf by (rewrite EncoderLines.noCR_app, Hnt; reflexivity).
  rewrite (app_assoc (lit "Subject: ")).
  rewrite HeaderFacts.lines_of_line_crlf by (rewrite EncoderLines.noCR_app, Hns; reflexivity).
  rewrite HeaderFacts.lines_of_line_crlf by reflexivity.
  cbn [app map]. rewrite !MonadFacts.bytes_of_tag. reflexivity.
Qed.

(** The [To:] line determines the recipient list: two lists of valid
    addresses with the same joined form are the same list. *)
Theorem To_header_injective (l1 l2 : list bytes) :
  forallb ValidateEmail l1 = true -> forallb ValidateEmail l2 = true ->
  join (lit ", ") l1 = join (lit ", ") l2 -> l1 = l2.
Proof.
  revert l2. induction l1 as [|a l1 IH]; intros l2 H1 H2 Hj.
  - destruct l2 as [|b l2]; [reflexivity|]. exfalso.
    cbn [forallb] in H2. apply andb_true_iff in H2 as [Hb _].
    apply (HeaderFacts.valid_nonempty b Hb).
    destruct l2; cbn [join] in Hj; [now symmetry|].
    symmetry in Hj. now apply app_eq_nil in Hj as [-> _].
  - destruct l2 as [|b l2].
    + exfalso. cbn [forallb] in H1. apply andb_true_iff in H1 as [Ha _].
      apply (HeaderFacts.valid_nonempty a Ha).
      destruct l1; cbn [join] in Hj; [exact Hj|]. now apply app_eq_nil in Hj as [-> _].
    + cbn [forallb] in H1, H2. apply andb_true_iff in H1 as [Ha H1].
      apply andb_true_iff in H2 as [Hb H2].
      pose proof (HeaderFacts.valid_no_comma a Ha) as Ca.
      pose proof (HeaderFacts.valid_no_comma b Hb) as Cb.
      destruct l1 as [|a' l1], l2 as [|b' l2]; cbn [join] in Hj.
      * now subst.
      * exfalso. apply Ca. rewrite Hj. apply in_or_app. right. now left.
      * exfalso. apply Cb. rewrite <- Hj. apply in_or_app. right. now left.
      * change (lit ", ") with (","%char :: lit " ") in Hj. cbn [app] in Hj.
        destruct (HeaderFacts.comma_split _ _ _ _ Ca Cb Hj) as [<- Hr].
        injection Hr as Hr. f_equal. apply IH; auto.
Qed.

Module RunFacts.
Import AssemblyFacts.

Lemma bind_Ok_inv {A B} (m : M A) (k : A -> M B) st u st' :
  bind m k st = Ok u st' -> exists a st1, m st = Ok a st1 /\ k a st1 = Ok u st'.
Proof. unfold bind. destruct (m st) as [a st1|e]; [eauto | discriminate]. Qed.

Lemma write_qp_Ok qp body st :
  snd (qp body) = None ->
  write_qp qp body st = Ok tt (mkState (msg st ++ tag true (fst (qp body))) (draws st)).
Proof. unfold write_qp. destruct (qp body) as [out [e|]]; cbn; [discriminate | reflexivity]. Qed.

Lemma write_qp_Err qp body st e : snd (qp body) = Some e -> write_qp qp body st = Err e.
Proof. unfold write_qp. destruct (qp body) as [out [e'|]]; cbn; intros H; [injection H as ->; reflexivity | discriminate]. Qed.

Lemma write_body_part_Ok qp mt body st :
  snd (qp body) = None ->
  write_body_part qp mt body st
  = Ok tt (mkState (msg st ++ tag false (body_part_headers mt) ++ tag true (fst (qp body))) (draws st)).
Proof.
  intros H. unfold write_body_part. rewrite !bind_write_lit. cbn [msg draws].
  rewrite write_qp_Ok by exact H. cbn [msg draws]. unfold body_part_headers.
  rewrite !tag_app, <- !app_assoc. reflexivity.
Qed.

Lemma write_body_part_Err qp mt body st e :
  snd (qp body) = Some e -> write_body_part qp mt body st = Err e.
Proof.
  intros H. unfold write_body_part. rewrite !bind_write_lit. now apply write_qp_Err.
Qed.

Lemma bind_write_enc {B} s (k : unit -> M B) st :
  bind (write_enc s) k st = k tt (mkState (msg st ++ tag true s) (draws st)).
Proof. reflexivity. Qed.

Lemma write_inlines_Ok b files st :
  exists sfx, write_inlines b files st = Ok tt (mkState (msg st ++ sfx) (draws st)).
Proof.
  revert st. induction files as [|f files IH]; intros st.
  - exists []. rewrite app_nil_r. destruct st; reflexivity.
  - cbn [write_inlines]. rewrite !bind_write_lit. cbn [msg draws].
    unfold m_writeBytes. rewrite bind_write_enc. cbn [msg draws].
    match goal with |- exists _, write_inlines b files ?s = _ =>
      destruct (IH s) as [sfx E] end.
    rewrite E. cbn [msg draws]. eexists. now rewrite <- !app_assoc.
Qed.

Lemma m_writeFile_Ok rf name st :
  snd (rf name) = None ->
  m_writeFile rf name st
  = Ok tt (mkState (msg st ++ tag true (writeBytes (fst (rf name)))) (draws st)).
Proof. unfold m_writeFile. destruct (rf name) as [file [e|]]; cbn; [discriminate | reflexivity]. Qed.

Lemma m_writeFile_Err rf name st e : snd (rf name) = Some e -> m_writeFile rf name st = Err e.
Proof. unfold m_writeFile. destruct (rf name) as [file [e'|]]; cbn; intros H; [injection H as ->; reflexivity | discriminate]. Qed.

Lemma is_nil_false {A} (l : list A) : l <> [] -> is_nil l = false.
Proof. destruct l; [congruence | reflexivity]. Qed.

Lemma write_attachments_Ok rf b files st :
  Forall (attachment_readable rf) files ->
  exists sfx, write_attachments rf b files st = Ok tt (mkState (msg st ++ sfx) (draws st)).
Proof.
  revert st. induction files as [|f files IH]; intros st H.
  - exists []. rewrite app_nil_r. destruct st; reflexivity.
  - apply Forall_cons_iff in H as [Hf H].
    cbn [write_attachments]. rewrite !bind_write_lit. cbn [msg draws].
    match goal with |- exists _, bind _ _ ?s = _ =>
      assert (Hs : exists out, (if negb (is_nil (ABody f)) then m_writeBytes (ABody f)
                              else m_writeFile rf (AName f)) s
                             = Ok tt (mkState (msg s ++ out) (draws s))) end.
    { destruct (is_nil (ABody f)) eqn:En; cbn [negb].
      - destruct Hf as [Hf|Hf]; [destruct (ABody f); [congruence | discriminate]|].
        rewrite m_writeFile_Ok by exact Hf. eexists. reflexivity.
      - eexists. reflexivity. }
    destruct Hs as [out Hs]. rewrite (MonadFacts.bind_Ok _ _ _ _ _ Hs).
    match goal with |- exists _, write_attachments rf b files ?s = _ =>
      destruct (IH s H) as [sfx E] end.
    rewrite E. cbn [msg draws]. eexists. now rewrite <- !app_assoc.
Qed.

Lemma write_attachments_Err rf b pre f post st e :
  Forall (attachment_readable rf) pre -> ABody f = [] -> snd (rf (AName f)) = Some e ->
  write_attachments rf b (pre ++ f :: post) st = Err e.
Proof.
  revert st. induction pre as [|g pre IH]; intros st Hpre Hf He.
  - cbn [app write_attachments]. rewrite !bind_write_lit. rewrite Hf. cbn [is_nil negb].
    apply MonadFacts.bind_Err. now apply m_writeFile_Err.
  - apply Forall_cons_iff in Hpre as [Hg Hpre].
    cbn [app write_attachments]. rewrite !bind_write_lit. cbn [msg draws].
    match goal with |- bind _ _ ?s = _ =>
      assert (Hs : exists out, (if negb (is_nil (ABody g)) then m_writeBytes (ABody g)
                              else m_writeFile rf (AName g)) s
                             = Ok tt (mkState (msg s ++ out) (draws s))) end.
    { destruct (is_nil (ABody g)) eqn:En; cbn [negb].
      - destruct Hg as [Hg|Hg]; [destruct (ABody g); [congruence | discriminate]|].
        rewrite m_writeFile_Ok by exact Hg. eexists. reflexivity.
      - eexists. reflexivity. }
    destruct Hs as [out Hs]. rewrite (MonadFacts.bind_Ok _ _ _ _ _ Hs).
    apply IH; auto.
Qed.

End RunFacts.

Ltac step :=
  match goal with
  | |- bind (bind ?m ?k1) ?k2 ?s = _ => rewrite (AssemblyFacts.bind_assoc m k1 k2 s)
  | |- bind (write_lit ?x) ?k ?s = _ => rewrite (AssemblyFacts.bind_write_lit x k s)
  | |- bind (ret ?a) ?k ?s = _ => rewrite (AssemblyFacts.bind_ret a k s)
  | |- bind (generateBoundary ?rr) ?k ?s = _ =>
      rewrite (MonadFacts.bind_Ok _ k s _ _ (AssemblyFacts.generateBoundary_Ok rr s))
  end; cbv beta; cbn [msg draws].

(** Once the checks pass, an error of the quoted-printable writer on the
    body is the error [ToBytes] returns, with no message. *)
Theorem ToBytes_qp_error rr rf qp (m : Mail) (e : bytes) :
  To m <> [] -> Body m <> [] -> ValidateEmail (From m) = true ->
  forallb ValidateEmail (To m) = true -> snd (qp (Body m)) = Some e ->
  ToBytes rr rf qp m = (None, Some e).
Proof.
  intros HTo HBody HFrom HAll He. unfold ToBytes.
  enough (E : ToBytes_m rr rf qp m init_state = Err e) by now rewrite E.
  rewrite (AssemblyFacts.ToBytes_m_checked rr rf qp m init_state HTo HBody HFrom HAll).
  cbv zeta. step.
  destruct (Attachment m) as [|f fs], (Inline m) as [|i is]; cbn [is_nil negb orb];
    repeat step;
    rewrite (MonadFacts.bind_Err _ _ _ _ (RunFacts.write_body_part_Err _ _ _ _ _ He));
    reflexivity.
Qed.

(** An attachment without a body whose file cannot be read makes
    [ToBytes] return the read error, provided the body is encoded and the
    attachments before it are written. *)
Theorem ToBytes_file_error rr rf qp (m : Mail) pre f post (e : bytes) :
  To m <> [] -> Body m <> [] -> ValidateEmail (From m) = true ->
  forallb ValidateEmail (To m) = true -> snd (qp (Body m)) = None ->
  Attachment m = pre ++ f :: post -> Forall (attachment_readable rf) pre ->
  ABody f = [] -> snd (rf (AName f)) = Some e ->
  ToBytes rr rf qp m = (None, Some e).
Proof.
  intros HTo HBody HFrom HAll Hq HA Hpre Hf He. unfold ToBytes.
  enough (E : ToBytes_m rr rf qp m init_state = Err e) by now rewrite E.
  rewrite (AssemblyFacts.ToBytes_m_checked rr rf qp m init_state HTo HBody HFrom HAll).
  cbv zeta. step. rewrite HA, RunFacts.is_nil_false by (destruct pre; discriminate).
  destruct (Inline m) as [|i is]; cbn [is_nil negb orb]; repeat step;
    rewrite (MonadFacts.bind_Ok _ _ _ _ _ (RunFacts.write_body_part_Ok _ _ _ _ Hq));
    cbv beta; cbn [msg draws].
  - apply MonadFacts.bind_Err. now apply RunFacts.write_attachments_Err.
  - repeat step. match goal with |- bind (write_inlines ?b ?fs) ?k ?s = _ =>
      destruct (RunFacts.write_inlines_Ok b fs s) as [sfx Ei];
      rewrite (MonadFacts.bind_Ok _ _ _ _ _ Ei) end.
    cbv beta. repeat step.
    apply MonadFacts.bind_Err. now apply RunFacts.write_attachments_Err.
Qed.

Module ReadFacts.

Lemma bind_cong {A B} (m m' : M A) (k k' : A -> M B) st :
  (forall st, m st = m' st) -> (forall a st, k a st = k' a st) -> bind m k st = bind m' k' st.
Proof. intros Hm Hk. unfold bind. rewrite Hm. destruct (m' st); auto. Qed.

Lemma write_attachments_rf rf rf' b files st :
  Forall (fun f => ABody f <> []) files ->
  write_attachments rf b files st = write_attachments rf' b files st.
Proof.
  revert st. induction files as [|f files IH]; intros st H; [reflexivity|].
  apply Forall_cons_iff in H as [Hf H].
  cbn [write_attachments]. rewrite !AssemblyFacts.bind_write_lit.
  rewrite RunFacts.is_nil_false by exact Hf. cbn [negb].
  unfold m_writeBytes. rewrite !RunFacts.bind_write_enc. apply IH, H.
Qed.

Ltac congr_M H :=
  intros; cbv beta zeta;
  lazymatch goal with
  | |- bind _ _ _ = bind _ _ _ => apply bind_cong; congr_M H
  | |- (if ?b then _ else _) _ = (if ?b then _ else _) _ => destruct b; congr_M H
  | |- write_attachments _ _ _ _ = write_attachments _ _ _ _ => apply write_attachments_rf, H
  | |- _ => reflexivity
  end.

End ReadFacts.

(** When every attachment carries its body, [ToBytes] never consults the
    file system: its result does not depend on it. *)
Theorem ToBytes_bodies_need_no_files rr rf rf' qp (m : Mail) :
  Forall (fun f => ABody f <> []) (Attachment m) ->
  ToBytes rr rf qp m = ToBytes rr rf' qp m.
Proof.
  intros H. unfold ToBytes.
  enough (E : ToBytes_m rr rf qp m init_state = ToBytes_m rr rf' qp m init_state) by now rewrite E.
  unfold ToBytes_m. ReadFacts.congr_M H.
Qed.

Module FrameFacts.
Import AssemblyFacts.


Lemma run_bind {A B} (m : M A) (k : A -> M B) st u st' :
  grows m -> bind m k st = Ok u st' ->
  exists a st1 sfx, m st = Ok a st1 /\ msg st1 = msg st ++ sfx /\ k a st1 = Ok u st'.
Proof.
  intros G H. destruct (RunFacts.bind_Ok_inv _ _ _ _ _ H) as (a & st1 & E1 & E2).
  destruct (G _ _ _ E1) as [sfx Es]. eauto 6.
Qed.

Lemma run_lit s st u st' : write_lit s st = Ok u st' -> msg st' = msg st ++ tag false s.
Proof. intros H. injection H as _ <-. reflexivity. Qed.

End FrameFacts.

#[local] Hint Resolve AssemblyFacts.grows_ret AssemblyFacts.grows_throw AssemblyFacts.grows_bind AssemblyFacts.grows_if AssemblyFacts.grows_write_lit AssemblyFacts.grows_write_enc
  AssemblyFacts.grows_generateBoundary AssemblyFacts.grows_m_writeBytes AssemblyFacts.grows_m_writeFile AssemblyFacts.grows_write_qp
  AssemblyFacts.grows_write_body_part AssemblyFacts.grows_write_inlines AssemblyFacts.grows_write_attachments : grows.

Ltac steph E :=
  match type of E with
  | bind (bind ?m ?k1) ?k2 ?s = _ => rewrite (AssemblyFacts.bind_assoc m k1 k2 s) in E
  | bind (write_lit ?x) ?k ?s = _ => rewrite (AssemblyFacts.bind_write_lit x k s) in E
  | bind (ret ?a) ?k ?s = _ => rewrite (AssemblyFacts.bind_ret a k s) in E
  | bind (generateBoundary ?rr) ?k ?s = _ =>
      rewrite (MonadFacts.bind_Ok _ k s _ _ (AssemblyFacts.generateBoundary_Ok rr s)) in E
  end; cbv beta in E; cbn [msg draws] in E.

(** With an attachment or an inline file, a successful [ToBytes] writes the
    header block, the [multipart/mixed] header with the boundary made from
    the first random read, the first delimiter, and ends with the closing
    delimiter. *)
Theorem ToBytes_multipart_frame rr rf qp (m : Mail) (out : bytes) :
  Attachment m <> [] \/ Inline m <> [] ->
  ToBytes rr rf qp m = (Some out, None) ->
  let b := render_boundary (fill16 (fst (rr 0))) in
  exists mid,
    out = header_block (From m) (To m) (Subject m)
          ++ lit "Content-Type: multipart/mixed; boundary=" ++ b ++ crlf ++ crlf
          ++ lit "--" ++ b ++ crlf ++ mid ++ crlf ++ lit "--" ++ b ++ lit "--" ++ crlf.
Proof.
  intros Hparts H. cbv zeta. unfold ToBytes in H.
  destruct (ToBytes_m rr rf qp m init_state) as [u st|e] eqn:E; [|discriminate].
  injection H as <-.
  destruct (HeaderFacts.ToBytes_m_Ok_pre _ _ _ _ _ _ _ E) as (HTo & HBody & HFrom & HAll).
  rewrite (AssemblyFacts.ToBytes_m_checked rr rf qp m init_state HTo HBody HFrom HAll) in E.
  cbv zeta in E.
  assert (Hor : negb (is_nil (Attachment m)) || negb (is_nil (Inline m)) = true).
  { destruct Hparts as [Hp|Hp].
    - rewrite (RunFacts.is_nil_false (Attachment m) Hp). reflexivity.
    - rewrite (RunFacts.is_nil_false (Inline m) Hp). apply orb_true_r. }
  rewrite Hor in E. repeat steph E.
  apply FrameFacts.run_bind in E as (a1 & s1 & x1 & _ & Hx1 & E);
    [|destruct (negb (is_nil (Inline m))); eauto 20 with grows].
  apply FrameFacts.run_bind in E as (a2 & s2 & x2 & _ & Hx2 & E);
    [|destruct (negb (is_nil (Attachment m))); eauto 20 with grows].
  apply FrameFacts.run_lit in E.
  exists (bytes_of (x1 ++ x2)).
  rewrite E, Hx2, Hx1. cbn [msg init_state app].
  rewrite !MonadFacts.bytes_of_app, !MonadFacts.bytes_of_tag. now rewrite <- !app_assoc.
Qed.


Module ContentFacts.
Import AssemblyFacts.

Lemma attachments_contain rf b l1 f l2 : forall st u st',
  write_attachments rf b (l1 ++ f :: l2) st = Ok u st' ->
  exists s1 s2, msg st' = msg st ++ s1
    ++ tag false (lit "Content-Disposition: attachment; filename=" ++ dquote ++ AName f
                  ++ dquote ++ crlf)
    ++ tag true (writeBytes (if is_nil (ABody f) then fst (rf (AName f)) else ABody f)) ++ s2.
Proof.
  induction l1 as [|g l1 IH]; intros st u st' H; cbn [app write_attachments] in H;
    rewrite !bind_write_lit in H; cbn [msg draws] in H.
  - destruct (is_nil (ABody f)) eqn:En; cbn [negb] in H.
    + destruct (snd (rf (AName f))) as [e|] eqn:Hr.
      { rewrite (MonadFacts.bind_Err _ _ _ _ (RunFacts.m_writeFile_Err _ _ _ _ Hr)) in H.
        discriminate. }
      rewrite (MonadFacts.bind_Ok _ _ _ _ _ (RunFacts.m_writeFile_Ok _ _ _ Hr)) in H.
      cbn [msg draws] in H.
      destruct (grows_write_attachments _ _ _ _ _ _ H) as [sfx Hs].
      exists (tag false (crlf ++ lit "--" ++ b ++ crlf) ++ tag false (lit "Content-Type: "
        ++ default_content_type (AContentType f) ++ lit "; name=" ++ dquote ++ AName f ++ dquote
        ++ crlf) ++ tag false (lit "Content-Transfer-Encoding: base64" ++ crlf)), sfx.
      rewrite Hs. cbn [msg]. rewrite <- !app_assoc. reflexivity.
    + unfold m_writeBytes in H. rewrite RunFacts.bind_write_enc in H. cbn [msg draws] in H.
      destruct (grows_write_attachments _ _ _ _ _ _ H) as [sfx Hs].
      exists (tag false (crlf ++ lit "--" ++ b ++ crlf) ++ tag false (lit "Content-Type: "
        ++ default_content_type (AContentType f) ++ lit "; name=" ++ dquote ++ AName f ++ dquote
        ++ crlf) ++ tag false (lit "Content-Transfer-Encoding: base64" ++ crlf)), sfx.
      rewrite Hs. cbn [msg]. rewrite <- !app_assoc. reflexivity.
  - apply FrameFacts.run_bind in H as (a1 & s1 & x1 & _ & Hx1 & H);
      [|destruct (negb (is_nil (ABody g))); [apply grows_m_writeBytes | apply grows_m_writeFile]].
    destruct (IH _ _ _ H) as (y1 & y2 & Hy).
    exists (tag false (crlf ++ lit "--" ++ b ++ crlf) ++ tag false (lit "Content-Type: "
        ++ default_content_type (AContentType g) ++ lit "; name=" ++ dquote ++ AName g ++ dquote
        ++ crlf) ++ tag false (lit "Content-Transfer-Encoding: base64" ++ crlf)
        ++ tag false (lit "Content-Disposition: attachment; filename=" ++ dquote ++ AName g
                  ++ dquote ++ crlf) ++ x1 ++ y1), y2.
    rewrite Hy, Hx1. cbn [msg]. rewrite <- !app_assoc. reflexivity.
Qed.

Lemma inlines_contain rb l1 i l2 : forall st u st',
  write_inlines rb (l1 ++ i :: l2) st = Ok u st' ->
  exists s1 s2, msg st' = msg st ++ s1
    ++ tag false (lit "Content-ID: <" ++ ICID i ++ lit ">" ++ crlf)
    ++ tag false (lit "Content-Disposition: inline; filename=" ++ dquote ++ IName i
                  ++ dquote ++ crlf)
    ++ tag true (writeBytes (IBody i)) ++ s2.
Proof.
  induction l1 as [|g l1 IH]; intros st u st' H; cbn [app write_inlines] in H;
    rewrite !bind_write_lit in H; cbn [msg draws] in H;
    unfold m_writeBytes in H; rewrite RunFacts.bind_write_enc in H; cbn [msg draws] in H.
  - destruct (grows_write_inlines _ _ _ _ _ H) as [sfx Hs].
    exists (tag false (crlf ++ lit "--" ++ rb ++ crlf) ++ tag false (lit "Content-Type: "
        ++ default_content_type (IContentType i) ++ lit "; name=" ++ dquote ++ IName i ++ dquote
        ++ crlf) ++ tag false (lit "Content-Transfer-Encoding: base64" ++ crlf)), sfx.
    rewrite Hs. cbn [msg]. rewrite <- !app_assoc. reflexivity.
  - destruct (IH _ _ _ H) as (y1 & y2 & Hy).
    exists (tag false (crlf ++ lit "--" ++ rb ++ crlf) ++ tag false (lit "Content-Type: "
        ++ default_content_type (IContentType g) ++ lit "; name=" ++ dquote ++ IName g ++ dquote
        ++ crlf) ++ tag false (lit "Content-Transfer-Encoding: base64" ++ crlf)
        ++ tag false (lit "Content-ID: <" ++ ICID g ++ lit ">" ++ crlf)
        ++ tag false (lit "Content-Disposition: inline; filename=" ++ dquote ++ IName g
                  ++ dquote ++ crlf) ++ tag true (writeBytes (IBody g)) ++ y1), y2.
    rewrite Hy. cbn [msg]. rewrite <- !app_assoc. reflexivity.
Qed.

End ContentFacts.

(** Every attachment appears in the output of a successful [ToBytes] as its
    [Content-Disposition] line followed by the base64 part of its body, or
    of the file read under its name when the body is empty. *)
Theorem ToBytes_attachment_content rr rf qp (m : Mail) (out : bytes) (f : AttachmentFile) :
  In f (Attachment m) ->
  ToBytes rr rf qp m = (Some out, None) ->
  exists pre post,
    out = pre ++ lit "Content-Disposition: attachment; filename=" ++ dquote ++ AName f ++ dquote
          ++ crlf ++ writeBytes (if is_nil (ABody f) then fst (rf (AName f)) else ABody f) ++ post.
Proof.
  intros Hf H. unfold ToBytes in H.
  destruct (ToBytes_m rr rf qp m init_state) as [u st|e] eqn:E; [|discriminate].
  injection H as <-.
  destruct (HeaderFacts.ToBytes_m_Ok_pre _ _ _ _ _ _ _ E) as (HTo & HBody & HFrom & HAll).
  rewrite (AssemblyFacts.ToBytes_m_checked rr rf qp m init_state HTo HBody HFrom HAll) in E.
  destruct (in_split f (Attachment m) Hf) as (l1 & l2 & HA).
  cbv zeta in E. rewrite HA, RunFacts.is_nil_false in E by (destruct l1; discriminate).
  cbn [negb orb] in E. repeat steph E.
  apply FrameFacts.run_bind in E as (a1 & s1 & x1 & _ & Hx1 & E);
    [|destruct (negb (is_nil (Inline m))); eauto 20 with grows].
  destruct (RunFacts.bind_Ok_inv _ _ _ _ _ E) as (a2 & s2 & E2 & E3).
  apply FrameFacts.run_lit in E3.
  destruct (ContentFacts.attachments_contain _ _ _ _ _ _ _ _ E2) as (y1 & y2 & Hy).
  exists (bytes_of (msg s1 ++ y1)), (bytes_of (y2 ++ tag false (crlf ++ lit "--"
    ++ render_boundary (fill16 (fst (rr (draws init_state)))) ++ lit "--" ++ crlf))).
  rewrite E3, Hy.
  rewrite !MonadFacts.bytes_of_app, !MonadFacts.bytes_of_tag. now rewrite <- !app_assoc.
Qed.

(** Every inline file appears in the output of a successful [ToBytes] as its
    [Content-ID] and [Content-Disposition] lines followed by the base64 part
    of its body. *)
Theorem ToBytes_inline_content rr rf qp (m : Mail) (out : bytes) (i : InlineFile) :
  In i (Inline m) ->
  ToBytes rr rf qp m = (Some out, None) ->
  exists pre post,
    out = pre ++ lit "Content-ID: <" ++ ICID i ++ lit ">" ++ crlf
          ++ lit "Content-Disposition: inline; filename=" ++ dquote ++ IName i ++ dquote ++ crlf
          ++ writeBytes (IBody i) ++ post.
Proof.
  intros Hi H. unfold ToBytes in H.
  destruct (ToBytes_m rr rf qp m init_state) as [u st|e] eqn:E; [|discriminate].
  injection H as <-.
  destruct (HeaderFacts.ToBytes_m_Ok_pre _ _ _ _ _ _ _ E) as (HTo & HBody & HFrom & HAll).
  rewrite (AssemblyFacts.ToBytes_m_checked rr rf qp m init_state HTo HBody HFrom HAll) in E.
  destruct (in_split i (Inline m) Hi) as (l1 & l2 & HI).
  cbv zeta in E. rewrite HI, (RunFacts.is_nil_false (l1 ++ i :: l2)), orb_true_r in E
    by (destruct l1; discriminate).
  cbn [negb] in E. repeat steph E.
  apply FrameFacts.run_bind in E as (a1 & s1 & x1 & _ & Hx1 & E); [|eauto with grows].
  repeat steph E.
  destruct (RunFacts.bind_Ok_inv _ _ _ _ _ E) as (a2 & s2 & E2 & E3).
  destruct (ContentFacts.inlines_contain _ _ _ _ _ _ _ E2) as (y1 & y2 & Hy).
  cbv beta in E3.
  match type of E3 with ?mm s2 = Ok _ _ =>
    assert (G : grows mm) by eauto 20 with grows; destruct (G _ _ _ E3) as [sfx Hs] end.
  exists (bytes_of (msg s1 ++ y1)), (bytes_of (y2 ++ sfx)).
  rewrite Hs, Hy.
  rewrite !MonadFacts.bytes_of_app, !MonadFacts.bytes_of_tag. now rewrite <- !app_assoc.
Qed.

Ltac stepx :=
  match goal with
  | |- context [bind (bind ?m ?k1) ?k2 ?s] => rewrite (AssemblyFacts.bind_assoc m k1 k2 s)
  | |- context [bind (write_lit ?x) ?k ?s] => rewrite (AssemblyFacts.bind_write_lit x k s)
  | |- context [bind (ret ?a) ?k ?s] => rewrite (AssemblyFacts.bind_ret a k s)
  | |- context [bind (generateBoundary ?rr) ?k ?s] =>
      rewrite (MonadFacts.bind_Ok _ k s _ _ (AssemblyFacts.generateBoundary_Ok rr s))
  end; cbv beta; cbn [msg draws].

(** [ToBytes] of [mail.go] checks no address: any non-empty recipient list
    and sender, even with CR LF in them, are written into the header block
    once the body is encoded and the attachments are readable. *)
Theorem ToBytes2_no_address_check rr rf qp (m : Mail2) :
  To2 m <> [] -> Body2 m <> [] -> snd (qp (Body2 m)) = None ->
  Forall (attachment_readable rf) (Attachment2 m) ->
  exists rest,
    ToBytes2 rr rf qp m = (Some (header_block (From2 m) (To2 m) (Subject2 m) ++ rest), None).
Proof.
  intros HTo HBody Hq HA. unfold ToBytes2.
  enough (E : exists sfx, ToBytes2_m rr rf qp m init_state
                          = Ok tt (mkState (tag false (header_block (From2 m) (To2 m) (Subject2 m))
                                            ++ sfx) (S 0))).
  { destruct E as [sfx E]. rewrite E. exists (bytes_of sfx). cbn [msg].
    now rewrite MonadFacts.bytes_of_app, MonadFacts.bytes_of_tag. }
  unfold ToBytes2_m. destruct (To2 m) as [|t ts]; [congruence|].
  destruct (Body2 m) as [|b bs]; [congruence|]. cbn [is_nil].
  rewrite (MonadFacts.bind_Ok _ _ _ _ _ (AssemblyFacts.write_headers_Ok _ _ _ _)).
  cbn [msg draws init_state app]. stepx.
  destruct (Attachment2 m) as [|f fs]; cbn [is_nil negb]; repeat stepx;
    rewrite (MonadFacts.bind_Ok _ _ _ _ _ (RunFacts.write_body_part_Ok _ _ _ _ Hq));
    cbn [msg draws].
  - eexists. reflexivity.
  - match goal with |- exists _, bind (write_attachments ?rf ?b ?fs) ?k ?s = _ =>
      destruct (RunFacts.write_attachments_Ok rf b fs s HA) as [sfx Ea];
      rewrite (MonadFacts.bind_Ok _ _ _ _ _ Ea) end.
    cbn [msg draws]. unfold write_lit. cbn [msg draws].
    eexists. rewrite <- !app_assoc. reflexivity.
Qed.

(** [ToBytes] succeeds only on a message that passed all its checks: a
    non-empty recipient list and body and valid sender and recipient
    addresses. *)
Theorem ToBytes_success_validated rr rf qp (m : Mail) (out : bytes) :
  ToBytes rr rf qp m = (Some out, None) ->
  To m <> [] /\ Body m <> [] /\ ValidateEmail (From m) = true /\ forallb ValidateEmail (To m) = true.
Proof.
  unfold ToBytes. destruct (ToBytes_m rr rf qp m init_state) as [u st|e] eqn:E; [|discriminate].
  intros _. exact (HeaderFacts.ToBytes_m_Ok_pre _ _ _ _ _ _ _ E).
Qed.

Module WordFacts.

Lemma rune_len_le4 s : rune_len s <= 4.
Proof.
  unfold rune_len. destruct s as [|s0 rest]; [lia|].
  repeat match goal with
         | |- context [if ?c then _ else _] => destruct c
         | |- context [match ?x with _ => _ end] => destruct x
         end; lia.
Qed.


Lemma writeQString_app a b : writeQString (a ++ b) = writeQString a ++ writeQString b.
Proof. unfold writeQString. apply flat_map_app. Qed.

Lemma writeQString_len3 s : length (writeQString s) <= 3 * length s.
Proof.
  induction s as [|b s IH]; [cbn; lia|].
  change (b :: s) with ([b] ++ s). rewrite writeQString_app, length_app.
  cbn [length]. unfold writeQString at 1; cbn [flat_map].
  destruct (is_char " "%char b); [cbn; lia|].
  destruct (_ && _); cbn; lia.
Qed.

Lemma writeQString_single b : q_single b = true -> length (writeQString [b]) <= 1.
Proof.
  unfold q_single, writeQString, in_range, is_char, code. cbn [flat_map].
  intros Hq. destruct (Ascii.eqb b " "%char) eqn:Es; [cbn; lia|].
  apply andb_prop in Hq as [Hq Hu]. apply andb_prop in Hq as [Hq Hqm].
  apply andb_prop in Hq as [Hr He]. apply andb_prop in Hr as [Hlo Hhi].
  apply Nat.leb_le in Hlo. rewrite Hhi, He, Hqm, Hu.
  assert (E : (33 <=? nat_of_ascii b) = true).
  { apply Nat.leb_le. destruct (Nat.eq_dec (nat_of_ascii b) 32) as [E|E]; [|lia].
    exfalso. assert (b = " "%char).
    { rewrite <- (ascii_nat_embedding b). rewrite E. reflexivity. }
    subst b. discriminate. }
  rewrite E. cbn. lia.
Qed.

Lemma wrap_concat cs w ws :
  openWord cs ++ w ++ concat (map (fun x => splitWord cs ++ x) ws) ++ closeWord
  = join (lit " ") (map (wrap_word cs) (w :: ws)).
Proof.
  revert w. induction ws as [|x ws IH]; intros w; [reflexivity|].
  specialize (IH x). cbn [map concat join] in *. rewrite <- IH.
  unfold wrap_word, splitWord. rewrite <- !app_assoc. reflexivity.
Qed.

Lemma qEncode_loop_words cs fuel s cur :
  cur <= maxContentLen ->
  exists w ws, qEncode_loop cs fuel s cur = w ++ concat (map (fun x => splitWord cs ++ x) ws)
    /\ cur + length w <= maxContentLen /\ Forall (fun x => length x <= maxContentLen) ws.
Proof.
  revert s cur. induction fuel as [|f IH]; intros s cur Hc.
  - exists [], []. cbn. split; [reflexivity|]. split; [lia|constructor].
  - destruct s as [|b rest].
    + exists [], []. cbn. split; [reflexivity|]. split; [lia|constructor].
    + cbn [qEncode_loop].
      set (rl := if q_single b then 1 else rune_len (b :: rest)).
      set (el := if q_single b then 1 else 3 * rl).
      assert (Hp : length (writeQString (firstn rl (b :: rest))) <= el).
      { unfold el, rl. destruct (q_single b) eqn:Q.
        - cbn [firstn]. apply writeQString_single; exact Q.
        - etransitivity; [apply writeQString_len3|]. rewrite length_firstn. lia. }
      assert (Hel : el <= 12).
      { unfold el, rl. destruct (q_single b); [lia|]. pose proof (rune_len_le4 (b :: rest)). lia. }
      set (p := writeQString (firstn rl (b :: rest))) in *.
      destruct (maxContentLen <? cur + el) eqn:L.
      * destruct (IH (skipn rl (b :: rest)) (0 + el)) as (w & ws & Ew & Lw & Fw);
          [unfold maxContentLen; lia|].
        exists [], ((p ++ w) :: ws). rewrite Ew. split.
        { cbn [map concat app]. rewrite !app_assoc. reflexivity. }
        split; [cbn; lia|]. constructor; [rewrite length_app; lia|exact Fw].
      * apply Nat.ltb_ge in L.
        destruct (IH (skipn rl (b :: rest)) (cur + el)) as (w & ws & Ew & Lw & Fw); [lia|].
        exists (p ++ w), ws. rewrite Ew. split; [rewrite <- app_assoc; reflexivity|].
        split; [rewrite length_app; lia|exact Fw].
Qed.

End WordFacts.

(** A subject that needs encoding becomes a space-separated list of
    encoded words [=?utf-8?q?...?=] with at most 63 bytes of content each,
    so no encoded word exceeds the 75 characters of RFC 2047. *)
Theorem QEncode_word_lengths subject :
  needsEncoding subject = true ->
  exists ws, QEncode (lit "utf-8") subject
             = join (lit " ") (map (fun w => lit "=?utf-8?q?" ++ w ++ lit "?=") ws)
    /\ Forall (fun w => length w <= 63) ws.
Proof.
  intros Hn. unfold QEncode. rewrite Hn. unfold encodeWord.
  change (isUTF8 (lit "utf-8")) with true. cbv iota.
  destruct (WordFacts.qEncode_loop_words (lit "utf-8") (length subject) subject 0) as (w & ws & E & L & F);
    [unfold maxContentLen; lia|].
  exists (w :: ws). rewrite E, <- app_assoc, WordFacts.wrap_concat. split; [reflexivity|].
  constructor; [unfold maxContentLen in L; lia|exact F].
Qed.

(** ** Instances of the properties above *)

Lemma render_boundary_injective_witness : lit "ab" = lit "ab".
Proof. apply (proj1 (render_boundary_injective (lit "ab") (lit "ab"))). reflexivity. Defined.

Lemma quotedprintable_plain_identity_witness :
  quotedprintable_body (crlf_lines [lit "Hello world"] ++ lit "Bye")
  = crlf_lines [lit "Hello world"] ++ lit "Bye".
Proof. apply quotedprintable_plain_identity. vm_compute. reflexivity. Defined.

Lemma ToBytes_header_lines_witness :
  exists rest,
    split_crlf ctrl_subject_out
    = [lit "From: " ++ From mail_ctrl_subject; lit "To: " ++ join (lit ", ") (To mail_ctrl_subject);
       lit "Subject: " ++ QEncode (lit "utf-8") (Subject mail_ctrl_subject); lit "MIME-Version: 1.0"]
      ++ split_crlf (lit "Content-Type: " ++ rest).
Proof.
  apply (ToBytes_header_lines rand_counter readFile_missing go_qp mail_ctrl_subject).
  vm_compute. reflexivity.
Defined.

Lemma To_header_injective_witness : [lit "c@d.com"; lit "e@f.org"] = [lit "c@d.com"; lit "e@f.org"].
Proof.
  apply To_header_injective; vm_compute; reflexivity.
Defined.

Lemma ToBytes_qp_error_witness :
  ToBytes rand_counter readFile_missing qp_failing mail_plain = (None, Some (lit "short write")).
Proof.
  apply ToBytes_qp_error; vm_compute; try reflexivity; intros H; discriminate H.
Defined.

Lemma ToBytes_file_error_witness :
  ToBytes rand_counter readFile_missing go_qp mail_with_file_attachment
  = (None, Some (lit "open testfile.txt: no such file or directory")).
Proof.
  apply (ToBytes_file_error rand_counter readFile_missing go_qp mail_with_file_attachment []
           (mkAttachment (lit "testfile.txt") [] []) []);
    try (vm_compute; reflexivity); try (vm_compute; intros H; discriminate H).
  constructor.
Defined.

Lemma ToBytes_bodies_need_no_files_witness :
  ToBytes rand_counter readFile_missing go_qp mail_with_body_attachment
  = ToBytes rand_counter (readFile_const long_bytes) go_qp mail_with_body_attachment.
Proof.
  apply ToBytes_bodies_need_no_files. constructor; [vm_compute; intros H; discriminate H|constructor].
Defined.

Lemma ToBytes_multipart_frame_witness :
  let b := render_boundary (fill16 (fst (rand_counter 0))) in
  exists mid,
    parts_out = header_block (From mail_parts) (To mail_parts) (Subject mail_parts)
          ++ lit "Content-Type: multipart/mixed; boundary=" ++ b ++ crlf ++ crlf
          ++ lit "--" ++ b ++ crlf ++ mid ++ crlf ++ lit "--" ++ b ++ lit "--" ++ crlf.
Proof.
  apply (ToBytes_multipart_frame rand_counter (readFile_const long_bytes) go_qp mail_parts).
  - left. intros H. discriminate H.
  - vm_compute. reflexivity.
Defined.


Lemma ToBytes_attachment_content_witness :
  exists pre post,
    parts_out = pre ++ lit "Content-Disposition: attachment; filename=" ++ dquote ++ lit "data.bin"
          ++ dquote ++ crlf ++ writeBytes long_bytes ++ post.
Proof.
  apply (ToBytes_attachment_content rand_counter (readFile_const long_bytes) go_qp mail_parts
           parts_out (mkAttachment (lit "data.bin") [] [])).
  - left. reflexivity.
  - vm_compute. reflexivity.
Defined.

Lemma ToBytes_inline_content_witness :
  exists pre post,
    parts_out = pre ++ lit "Content-ID: <" ++ lit "logo" ++ lit ">" ++ crlf
          ++ lit "Content-Disposition: inline; filename=" ++ dquote ++ lit "logo.png" ++ dquote ++ crlf
          ++ writeBytes long_bytes ++ post.
Proof.
  apply (ToBytes_inline_content rand_counter (readFile_const long_bytes) go_qp mail_parts
           parts_out (mkInline (lit "logo") (lit "logo.png") (lit "image/png") long_bytes)).
  - left. reflexivity.
  - vm_compute. reflexivity.
Defined.

Lemma ToBytes2_no_address_check_witness :
  exists rest,
    ToBytes2 rand_counter readFile_missing go_qp mail2_injected
    = (Some (header_block (lit "a@b.com" ++ crlf ++ lit "Bcc: x@y.com") [lit "not an address"]
                          (lit "Hi") ++ rest), None).
Proof.
  apply (ToBytes2_no_address_check rand_counter readFile_missing go_qp mail2_injected).
  - intros H. discriminate H.
  - intros H. discriminate H.
  - reflexivity.
  - constructor.
Defined.

Lemma ToBytes_success_validated_witness :
  To mail_ctrl_subject <> [] /\ Body mail_ctrl_subject <> []
  /\ ValidateEmail (From mail_ctrl_subject) = true
  /\ forallb ValidateEmail (To mail_ctrl_subject) = true.
Proof.
  apply (ToBytes_success_validated rand_counter readFile_missing go_qp mail_ctrl_subject
           ctrl_subject_out).
  vm_compute. reflexivity.
Defined.

Lemma QEncode_word_lengths_witness :
  exists ws, QEncode (lit "utf-8") (Subject mail_ctrl_subject)
             = join (lit " ") (map (fun w => lit "=?utf-8?q?" ++ w ++ lit "?=") ws)
    /\ Forall (fun w => length w <= 63) ws.
Proof. apply QEncode_word_lengths. vm_compute. reflexivity. Defined.
